(** * build_payload: a shallow embedding of [build_payload.cpp]

    The program reads one or more binary files, optionally runs them
    through Qt's [qCompress], and prints every payload as a C/C++ array
    declaration followed by a size constant.

    Conventions of the embedding:
    - [unsigned] and [unsigned long] values are integers in [Z] with the
      wrap-around of the 32-bit and 64-bit types written out;
    - an input stream is the list of bytes it still holds;
    - a function that writes to a [std::ostream] returns the text it
      appends to that stream;
    - a run that never ends (a row of stars of the banner whose bound is
      the largest [unsigned]) is [None];
    - [qCompress] and [strtoul] belong to Qt and to the C library and are
      parameters, as is the value of the uninitialised [readData], one
      for every call of [parseAndDumpInput];
    - the files are what [World] says before the run; the output file is
      emptied when it is opened and then holds the text written so far,
      also when it is read as an input, under its own path or under
      another path of the same file, or through [std::cin]. *)

From Stdlib Require Import ZArith List Bool Lia.
From Stdlib Require Import Strings.String Strings.Ascii Strings.Byte DecimalString.
Import ListNotations.

Local Open Scope string_scope.
Local Open Scope Z_scope.

(** ** Machine integers *)

Definition UINT_MAX : Z := 2 ^ 32 - 1.

(** Value of an arithmetic expression stored in an [unsigned]. *)
Definition to_unsigned (z : Z) : Z := z mod 2 ^ 32.

(** Value of an arithmetic expression stored in an [unsigned long]. *)
Definition to_unsigned_long (z : Z) : Z := z mod 2 ^ 64.

Definition is_unsigned (z : Z) : Prop := 0 <= z <= UINT_MAX.

(** The largest size a [QByteArray] can have (its size is an [int]). *)
Definition INT_MAX : Z := 2 ^ 31 - 1.

(** [static_cast<int>] of a size: the value modulo 2^32, read as a signed
    32-bit integer. *)
Definition to_int (z : Z) : Z := (z + 2 ^ 31) mod 2 ^ 32 - 2 ^ 31.

(** ** Text written to a stream *)

(** [std::endl]: a line feed. *)
Definition endl : string := String (ascii_of_nat 10) "".

(** The loop [for (column = 0; column < n; ++column) s += " "]. *)
Fixpoint spaces (n : nat) : string :=
  match n with
  | O => ""
  | S k => String " " (spaces k)
  end.

(** [outputStream << n] for an unsigned integer [n]: its decimal digits. *)
Definition decimal (n : Z) : string :=
  NilZero.string_of_uint (N.to_uint (Z.to_N n)).

(** One upper-case hexadecimal digit, as [%X] prints it. *)
Definition hexDigit (d : N) : ascii :=
  match d with
  | 0%N => "0" | 1%N => "1" | 2%N => "2" | 3%N => "3"
  | 4%N => "4" | 5%N => "5" | 6%N => "6" | 7%N => "7"
  | 8%N => "8" | 9%N => "9" | 10%N => "A" | 11%N => "B"
  | 12%N => "C" | 13%N => "D" | 14%N => "E" | _ => "F"
  end%char.

(** [sprintf(buffer, "0x%02X", static_cast<unsigned>(v))]. *)
Definition sprintf_0x02X (v : byte) : string :=
  let n := Byte.to_N v in
  String "0" (String "x"
    (String (hexDigit (n / 16)) (String (hexDigit (n mod 16)) ""))).

(** ** parseAndDumpInput *)

(** The read loop (lines 81-86):
<<
    while (inputStream) {
        unsigned char readData;
        inputStream.read(reinterpret_cast<char*>(&readData), 1);
        inputBuffer.push_back(readData);
    }
>>
    The stream is tested before the read, not after it.  Reading the last
    byte leaves the stream good, so the body runs once more: that read
    extracts nothing, sets [eofbit|failbit] and leaves [readData] as it
    was, and [readData] is pushed all the same.  [readData] is a local
    without initialiser; [indeterminate] is the value it happens to hold
    in that last round. *)
Fixpoint readInput (indeterminate : byte) (inputStream : list byte) : list byte :=
  match inputStream with
  | [] => [indeterminate]
  | readData :: rest => readData :: readInput indeterminate rest
  end.

(** The bytes in front of the first zero byte. *)
Fixpoint upToZero (data : list byte) : list byte :=
  match data with
  | [] => []
  | b :: rest => if Byte.eqb b x00 then [] else b :: upToZero rest
  end.

(** Line 88: [QByteArray byteArray(data, size)], the first [size] bytes of
    [data].  Qt takes a negative [size] to mean that [data] ends with a
    zero byte and stops in front of it. *)
Definition QByteArray (data : list byte) (size : Z) : list byte :=
  if size <? 0 then upToZero data else firstn (Z.to_nat size) data.

(** Line 89: [zlibCompress ? qCompress(byteArray, 9) : byteArray].
    [qCompress] is Qt's; it is a parameter of the embedding. *)
Definition compress (qCompress : list byte -> Z -> list byte)
    (byteArray : list byte) (zlibCompress : bool) : list byte :=
  if zlibCompress then qCompress byteArray 9 else byteArray.

(** Lines 91-99: the two indentation strings. *)
Definition leftIndentationString (leftIndentation : Z) : string :=
  spaces (Z.to_nat leftIndentation).

Definition contentsIndentationString (leftIndentation indentation : Z) : string :=
  spaces (Z.to_nat (to_unsigned (leftIndentation + indentation))).

(** Line 106: [(width - indentation - leftIndentation + 1) / 6] in
    [unsigned] arithmetic. *)
Definition valuesPerLine (leftIndentation indentation width : Z) : Z :=
  to_unsigned (width - indentation - leftIndentation + 1) / 6.

(** The loop of lines 108-125.  [outputData] holds the bytes from index
    [i] on, so that [outputData.at(i)] is its head; the loop is entered
    with [i = 0], [valuesThisLine = valuesPerLine] and the whole array. *)
Fixpoint dumpValues (contentsIndentation : string) (perLine numberBytes : Z)
    (i valuesThisLine : Z) (outputData : list byte) : string :=
  match outputData with
  | [] => ""
  | v :: rest =>
      let newLine := perLine <=? valuesThisLine in
      (if newLine then endl ++ contentsIndentation else "")
      ++ sprintf_0x02X v
      ++ (if i <? to_unsigned_long (numberBytes - 1) then ", " else "")
      ++ dumpValues contentsIndentation perLine numberBytes
           (to_unsigned_long (i + 1))
           (if newLine then 1 else to_unsigned (valuesThisLine + 1))
           rest
  end.

(** The text between the opening [{] and the line break before [};]. *)
Definition arrayBody (leftIndentation indentation width : Z)
    (outputData : list byte) : string :=
  let perLine := valuesPerLine leftIndentation indentation width in
  dumpValues (contentsIndentationString leftIndentation indentation)
    perLine (Z.of_nat (List.length outputData)) 0 perLine outputData.

(** Lines 91-132: everything [parseAndDumpInput] writes for the bytes
    [outputData]. *)
Definition dumpOutput (outputData : list byte)
    (leftIndentation indentation width : Z)
    (prefix variableName variableType sizeVariableName sizeVariableType : string)
    : string :=
  let left := leftIndentationString leftIndentation in
  let numberBytes := Z.of_nat (List.length outputData) in
  left ++ variableType ++ " " ++ prefix ++ variableName
    ++ "[" ++ decimal numberBytes ++ "] = {"
    ++ arrayBody leftIndentation indentation width outputData
    ++ endl
    ++ left ++ "};" ++ endl
    ++ endl
    ++ left ++ sizeVariableType ++ " " ++ prefix ++ sizeVariableName
    ++ " = " ++ decimal numberBytes ++ ";" ++ endl
    ++ endl.

(** ** The banner *)

Fixpoint stars (n : nat) : string :=
  match n with
  | O => ""
  | S k => String "*" (stars k)
  end.

(** [for (unsigned column = first; column <= limit; ++column) outputStream << "*";]
    writes [limit - first + 1] stars, none when [limit < first].  When
    [limit] is [UINT_MAX] the test [column <= limit] never fails and the
    loop never ends: [None]. *)
Definition starRow (first limit : Z) : option string :=
  if limit =? UINT_MAX then None
  else Some (stars (Z.to_nat (limit - first + 1))).

Definition isNewline (c : ascii) : bool := Ascii.eqb c (ascii_of_nat 10).

(** The first element of a non-empty list of strings gets [c] in front. *)
Definition consHead (c : ascii) (l : list string) : list string :=
  match l with
  | [] => [String c ""]
  | s :: rest => String c s :: rest
  end.

(** The lines [while (std::getline(stream, line))] yields for [message]:
    a line feed ends a line, and nothing follows a final line feed. *)
Fixpoint getlines (message : string) : list string :=
  match message with
  | "" => []
  | String c rest =>
      if isNewline c then "" :: getlines rest else consHead c (getlines rest)
  end.

(** The pieces of [l] one after the other. *)
Definition joined (l : list string) : string := fold_right append "" l.

(** Every line of [message] behind ["* "]. *)
Definition commentLines (message : string) : string :=
  joined (map (fun line => "* " ++ line ++ endl) (getlines message)).

Definition isEmpty (s : string) : bool :=
  match s with
  | "" => true
  | String _ _ => false
  end.

(** Lines 186-225.  [None]: one of the rows of stars never ends. *)
Definition banner (description copyrightMessage : string)
    (noCopyrightMessage : bool) (width : Z) : option string :=
  if negb noCopyrightMessage || negb (isEmpty description) then
    match starRow 13 width,
          (if negb noCopyrightMessage && negb (isEmpty description)
           then starRow 1 (to_unsigned (width - 4)) else Some ""),
          starRow 1 (to_unsigned (width - 1)) with
    | Some top, Some middle, Some bottom =>
        Some ("/*-*-c++-*-*" ++ top ++ endl
              ++ (if negb noCopyrightMessage
                  then commentLines copyrightMessage else "")
              ++ (if negb noCopyrightMessage && negb (isEmpty description)
                  then middle ++ "//**" ++ endl else "")
              ++ (if negb (isEmpty description)
                  then "* \file" ++ endl ++ "*" ++ endl
                       ++ commentLines description
                  else "")
              ++ bottom ++ "/" ++ endl
              ++ endl)
    | _, _, _ => None
    end
  else Some "".

(** ** The variable name prefix of an input file *)

(** [s.rfind(c)]: the last position of [c] in [s]; [None] is [npos]. *)
Fixpoint rfind (c : ascii) (s : string) : option nat :=
  match s with
  | "" => None
  | String a rest =>
      match rfind c rest with
      | Some position => Some (S position)
      | None => if Ascii.eqb a c then Some O else None
      end
  end.

(** [s.substr(pos)] for [pos <= s.size()]: [s] without its first [pos]
    characters. *)
Fixpoint substr (pos : nat) (s : string) : string :=
  match pos, s with
  | O, _ => s
  | S _, "" => ""
  | S p, String _ rest => substr p rest
  end.

(** [std::replace(s.begin(), s.end(), old, new)]. *)
Fixpoint replace (old new : ascii) (s : string) : string :=
  match s with
  | "" => ""
  | String c rest =>
      String (if Ascii.eqb c old then new else c) (replace old new rest)
  end.

Definition backslash : ascii := ascii_of_nat 92.

(** Lines 279-298. *)
Definition resolvePrefix (inputFilename : string) : string :=
  let forwardSlashPosition := rfind "/" inputFilename in
  let backslashPosition := rfind backslash inputFilename in
  let prefix :=
    match forwardSlashPosition, backslashPosition with
    | Some forward, Some backward =>
        let slashPosition := Nat.max forward backward in
        substr (slashPosition + 1) inputFilename
    | Some forward, None => substr (forward + 1) inputFilename
    | None, Some backward => substr (backward + 1) inputFilename
    | None, None => inputFilename
    end in
  replace "." "_" prefix.

(** ** The environment of a run *)

Record World : Type := {
  (** what [std::cin] holds *)
  standardInput : list byte;
  (** the contents of a file that [std::ifstream] can open *)
  inputFile : string -> option (list byte);
  (** whether [std::ofstream] can open the file *)
  outputFile : string -> bool;
  (** whether two different paths name the same file *)
  sameFile : string -> string -> bool;
  (** whether [std::cin] reads the file of that path from its start *)
  standardInputFrom : string -> bool
}.

(** What a function has written when it returns. *)
Record Written : Type := {
  succeeded : bool;       (* the return value *)
  toOutput : string;      (* written to [outputStream] *)
  toError : string        (* written to [std::cerr] *)
}.

(** What the program leaves behind. *)
Record Outcome : Type := {
  exitStatus : Z;
  standardOutput : string;
  standardError : string;
  fileWritten : option (string * string)   (* name and contents *)
}.

(** The locals of [main] that the argument loop updates, with what it
    writes to [std::cerr]. *)
Record Locals : Type := {
  success : bool;
  helpRequested : bool;
  description : string;
  outputFilename : string;
  copyrightMessage : string;
  removeCopyright : bool;
  indentation : Z;
  width : Z;
  namespaceName : string;
  variableName : string;
  variableType : string;
  sizeVariableName : string;
  sizeVariableType : string;
  useZlib : bool;
  inputs : list string;
  errors : string
}.

Definition set_success (v : bool) (l : Locals) : Locals :=
  {| success := v;
     helpRequested := helpRequested l;
     description := description l;
     outputFilename := outputFilename l;
     copyrightMessage := copyrightMessage l;
     removeCopyright := removeCopyright l;
     indentation := indentation l;
     width := width l;
     namespaceName := namespaceName l;
     variableName := variableName l;
     variableType := variableType l;
     sizeVariableName := sizeVariableName l;
     sizeVariableType := sizeVariableType l;
     useZlib := useZlib l;
     inputs := inputs l;
     errors := errors l |}.

Definition set_helpRequested (v : bool) (l : Locals) : Locals :=
  {| success := success l;
     helpRequested := v;
     description := description l;
     outputFilename := outputFilename l;
     copyrightMessage := copyrightMessage l;
     removeCopyright := removeCopyright l;
     indentation := indentation l;
     width := width l;
     namespaceName := namespaceName l;
     variableName := variableName l;
     variableType := variableType l;
     sizeVariableName := sizeVariableName l;
     sizeVariableType := sizeVariableType l;
     useZlib := useZlib l;
     inputs := inputs l;
     errors := errors l |}.

Definition set_outputFilename (v : string) (l : Locals) : Locals :=
  {| success := success l;
     helpRequested := helpRequested l;
     description := description l;
     outputFilename := v;
     copyrightMessage := copyrightMessage l;
     removeCopyright := removeCopyright l;
     indentation := indentation l;
     width := width l;
     namespaceName := namespaceName l;
     variableName := variableName l;
     variableType := variableType l;
     sizeVariableName := sizeVariableName l;
     sizeVariableType := sizeVariableType l;
     useZlib := useZlib l;
     inputs := inputs l;
     errors := errors l |}.

Definition set_copyrightMessage (v : string) (l : Locals) : Locals :=
  {| success := success l;
     helpRequested := helpRequested l;
     description := description l;
     outputFilename := outputFilename l;
     copyrightMessage := v;
     removeCopyright := removeCopyright l;
     indentation := indentation l;
     width := width l;
     namespaceName := namespaceName l;
     variableName := variableName l;
     variableType := variableType l;
     sizeVariableName := sizeVariableName l;
     sizeVariableType := sizeVariableType l;
     useZlib := useZlib l;
     inputs := inputs l;
     errors := errors l |}.

Definition set_removeCopyright (v : bool) (l : Locals) : Locals :=
  {| success := success l;
     helpRequested := helpRequested l;
     description := description l;
     outputFilename := outputFilename l;
     copyrightMessage := copyrightMessage l;
     removeCopyright := v;
     indentation := indentation l;
     width := width l;
     namespaceName := namespaceName l;
     variableName := variableName l;
     variableType := variableType l;
     sizeVariableName := sizeVariableName l;
     sizeVariableType := sizeVariableType l;
     useZlib := useZlib l;
     inputs := inputs l;
     errors := errors l |}.

Definition set_indentation (v : Z) (l : Locals) : Locals :=
  {| success := success l;
     helpRequested := helpRequested l;
     description := description l;
     outputFilename := outputFilename l;
     copyrightMessage := copyrightMessage l;
     removeCopyright := removeCopyright l;
     indentation := v;
     width := width l;
     namespaceName := namespaceName l;
     variableName := variableName l;
     variableType := variableType l;
     sizeVariableName := sizeVariableName l;
     sizeVariableType := sizeVariableType l;
     useZlib := useZlib l;
     inputs := inputs l;
     errors := errors l |}.

Definition set_width (v : Z) (l : Locals) : Locals :=
  {| success := success l;
     helpRequested := helpRequested l;
     description := description l;
     outputFilename := outputFilename l;
     copyrightMessage := copyrightMessage l;
     removeCopyright := removeCopyright l;
     indentation := indentation l;
     width := v;
     namespaceName := namespaceName l;
     variableName := variableName l;
     variableType := variableType l;
     sizeVariableName := sizeVariableName l;
     sizeVariableType := sizeVariableType l;
     useZlib := useZlib l;
     inputs := inputs l;
     errors := errors l |}.

Definition set_namespaceName (v : string) (l : Locals) : Locals :=
  {| success := success l;
     helpRequested := helpRequested l;
     description := description l;
     outputFilename := outputFilename l;
     copyrightMessage := copyrightMessage l;
     removeCopyright := removeCopyright l;
     indentation := indentation l;
     width := width l;
     namespaceName := v;
     variableName := variableName l;
     variableType := variableType l;
     sizeVariableName := sizeVariableName l;
     sizeVariableType := sizeVariableType l;
     useZlib := useZlib l;
     inputs := inputs l;
     errors := errors l |}.

Definition set_variableName (v : string) (l : Locals) : Locals :=
  {| success := success l;
     helpRequested := helpRequested l;
     description := description l;
     outputFilename := outputFilename l;
     copyrightMessage := copyrightMessage l;
     removeCopyright := removeCopyright l;
     indentation := indentation l;
     width := width l;
     namespaceName := namespaceName l;
     variableName := v;
     variableType := variableType l;
     sizeVariableName := sizeVariableName l;
     sizeVariableType := sizeVariableType l;
     useZlib := useZlib l;
     inputs := inputs l;
     errors := errors l |}.

Definition set_variableType (v : string) (l : Locals) : Locals :=
  {| success := success l;
     helpRequested := helpRequested l;
     description := description l;
     outputFilename := outputFilename l;
     copyrightMessage := copyrightMessage l;
     removeCopyright := removeCopyright l;
     indentation := indentation l;
     width := width l;
     namespaceName := namespaceName l;
     variableName := variableName l;
     variableType := v;
     sizeVariableName := sizeVariableName l;
     sizeVariableType := sizeVariableType l;
     useZlib := useZlib l;
     inputs := inputs l;
     errors := errors l |}.

Definition set_sizeVariableName (v : string) (l : Locals) : Locals :=
  {| success := success l;
     helpRequested := helpRequested l;
     description := description l;
     outputFilename := outputFilename l;
     copyrightMessage := copyrightMessage l;
     removeCopyright := removeCopyright l;
     indentation := indentation l;
     width := width l;
     namespaceName := namespaceName l;
     variableName := variableName l;
     variableType := variableType l;
     sizeVariableName := v;
     sizeVariableType := sizeVariableType l;
     useZlib := useZlib l;
     inputs := inputs l;
     errors := errors l |}.

Definition set_sizeVariableType (v : string) (l : Locals) : Locals :=
  {| success := success l;
     helpRequested := helpRequested l;
     description := description l;
     outputFilename := outputFilename l;
     copyrightMessage := copyrightMessage l;
     removeCopyright := removeCopyright l;
     indentation := indentation l;
     width := width l;
     namespaceName := namespaceName l;
     variableName := variableName l;
     variableType := variableType l;
     sizeVariableName := sizeVariableName l;
     sizeVariableType := v;
     useZlib := useZlib l;
     inputs := inputs l;
     errors := errors l |}.

Definition set_useZlib (v : bool) (l : Locals) : Locals :=
  {| success := success l;
     helpRequested := helpRequested l;
     description := description l;
     outputFilename := outputFilename l;
     copyrightMessage := copyrightMessage l;
     removeCopyright := removeCopyright l;
     indentation := indentation l;
     width := width l;
     namespaceName := namespaceName l;
     variableName := variableName l;
     variableType := variableType l;
     sizeVariableName := sizeVariableName l;
     sizeVariableType := sizeVariableType l;
     useZlib := v;
     inputs := inputs l;
     errors := errors l |}.

Definition set_inputs (v : list string) (l : Locals) : Locals :=
  {| success := success l;
     helpRequested := helpRequested l;
     description := description l;
     outputFilename := outputFilename l;
     copyrightMessage := copyrightMessage l;
     removeCopyright := removeCopyright l;
     indentation := indentation l;
     width := width l;
     namespaceName := namespaceName l;
     variableName := variableName l;
     variableType := variableType l;
     sizeVariableName := sizeVariableName l;
     sizeVariableType := sizeVariableType l;
     useZlib := useZlib l;
     inputs := v;
     errors := errors l |}.

Definition set_errors (v : string) (l : Locals) : Locals :=
  {| success := success l;
     helpRequested := helpRequested l;
     description := description l;
     outputFilename := outputFilename l;
     copyrightMessage := copyrightMessage l;
     removeCopyright := removeCopyright l;
     indentation := indentation l;
     width := width l;
     namespaceName := namespaceName l;
     variableName := variableName l;
     variableType := variableType l;
     sizeVariableName := sizeVariableName l;
     sizeVariableType := sizeVariableType l;
     useZlib := useZlib l;
     inputs := inputs l;
     errors := v |}.


Definition quote : string := String (ascii_of_nat 34) "".

Definition helpLines : list string :=
  ["Copyright 2020 Inesonic, LLC";
   "This software is licensed under two terms:";
   "  * The Inesonic Commercial License, Version 1";
   "  * GNU Public License, Version 2";
   "";
   "You can use this utility to convert a file, in raw binary form, to an C99 or";
   "C++ array suitable for inclusion within a program.  You can use the program";
   "to generate binary payloads of files.";
   "";
   "Command:";
   "  build_payload [options] [ file [ file [ file ... ] ] ]";
   "";
   "  -h | --help";
   "    Display this help text, then exit.  All other switches are ignored.";
   "";
   "  --o <filename> | --output <filename>";
   "    Specifies the name of the output file.  Output will be sent to stdout if";
   "    this switch is not provided.";
   "";
   "  -c <message> | --copyright <message>";
   "    Sets the displayed copyright message.  A standard copyright message will";
   "    be included if this switch is not used.";
   "";
   "  -C | --no-copyright";
   "    Removes all copyright messages from the output.  Using this switch will";
   "    cause the -c/--copyright switch to be ignored.";
   "";
   "  -i <indentation> | --indentation <indentation>";
   "    Specifies the indentation to use when formatting the output.  This tool";
   "    will use an indentation of 4 spaces by default.";
   "";
   "  -w <width> | --width <width>";
   "    Specifies the maximum line length.  The value is ignored when inserting";
   "    the description and copyright messages.";
   "";
   "  -n <namespace> | --namespace <namespace>";
   "    Specifies an optional namespace to place the generated content under.";
   "";
   "  -v <variable|suffix> | --variable <variable|suffix>";
   "    Specifies the variable name to use for the payload.  If multiple input";
   "    files are provided, then this switch specifies a suffix to append to";
   "    the generated payloads.  Payload names will be based on the supplied";
   ("    filenames.  The default value is " ++ quote ++ "declarations" ++ quote);
   "";
   "  -t <variable type> | --type <variable type>";
   "    Specifies the type to assign to the payload array.  The default value";
   ("    is " ++ quote ++ "static const unsigned char" ++ quote ++ ".");
   "";
   "  -V <variable|suffix> | --size-variable <variable|suffix>";
   "    Specifies the variable name to use for the payload size.  If multiple";
   "    input files are provided, then this switch specifies a suffix to append";
   "    to the generated payload sizes.  Payload names will be based on the ";
   ("    supplied filenames.  The default value is " ++ quote ++ "declarationsSize" ++ quote);
   "";
   "  -T <variable type> | --size-type <variable type<";
   "    Specifies the type to assign to the payload size.  The default value";
   ("    is " ++ quote ++ "static const unsigned long" ++ quote ++ ".");
   "";
   "  -z | --zlib";
   "    Indicates that the generated payload should be compressed using Qt's";
   "    funky variant of the zlib compression algorithm.  This is the default";
   "    behavior.";
   "";
   "  -Z | --no-zlib";
   "    Indicates that the generated payload should not be compressed using";
   "    Qt's variant of the zlib compression algorithm."].

Definition helpText : string :=
  joined (map (fun line => line ++ endl) helpLines).

(** [parseAndDumpInput]: the return value and the text written to
    [outputStream].  [inputStream] is good on entry, as at every call;
    [indeterminate] is what the uninitialised [readData] of this call
    holds when the last read fails. *)
Definition parseAndDumpInput (qCompress : list byte -> Z -> list byte)
    (indeterminate : byte) (inputStream : list byte)
    (leftIndentation indentation width : Z)
    (prefix variableName variableType sizeVariableName sizeVariableType : string)
    (zlibCompress : bool) : bool * string :=
  let inputBuffer := readInput indeterminate inputStream in
  let byteArray :=
    QByteArray inputBuffer (to_int (Z.of_nat (List.length inputBuffer))) in
  let outputData := compress qCompress byteArray zlibCompress in
  (true,
   dumpOutput outputData leftIndentation indentation width
     prefix variableName variableType sizeVariableName sizeVariableType).

Section Platform.

(** Qt's [qCompress(data, level)]. *)
Variable qCompress : list byte -> Z -> list byte.

(** What the uninitialised [readData] holds when the last read fails, in
    the first, second, ... call of [parseAndDumpInput] of the run. *)
Variable indeterminate : nat -> byte.

(** The C library's [strtoul(text, nullptr, 10)]. *)
Variable strtoul : string -> Z.

Variable world : World.

(** ** buildPayloadHelper *)

(** Whether [path] names the file behind the output stream;
    [outputStream] is the name that file was opened with, [None] for
    [std::cout]. *)
Definition isOutputFile (outputStream : option string) (path : string) : bool :=
  match outputStream with
  | Some outputFilename =>
      (path =? outputFilename)%string || sameFile world path outputFilename
  | None => false
  end.

(** [std::ifstream inputStream(path)], read to its end when the output
    stream has written [written].  The file behind the output stream was
    emptied when it was opened and every write so far ended with
    [std::endl], which flushes: read as an input it holds [written]. *)
Definition openInput (outputStream : option string) (written : string)
    (path : string) : option (list byte) :=
  if isOutputFile outputStream path
  then Some (list_byte_of_string written)
  else inputFile world path.

(** [std::cin], read to its end when the output stream has written
    [written]. *)
Definition readStandardInput (outputStream : option string)
    (written : string) : list byte :=
  match outputStream with
  | Some outputFilename =>
      if standardInputFrom world outputFilename
      then list_byte_of_string written
      else standardInput world
  | None => standardInput world
  end.

(** The comment line in front of the block of one of several inputs. *)
Definition contentsComment (inputFilename : string) : string :=
  "// Contents of " ++ inputFilename ++ ":" ++ endl.

(** The loop of lines 272-322 over the inputs from [inputIterator] on;
    [inputs] is the whole vector, for [inputs.at(0)], [written] the text
    written so far and [call] the number of calls of [parseAndDumpInput]
    so far.  The loop is left as soon as [success] is false.  The input
    is opened before its comment line is written and read after it. *)
Fixpoint dumpInputs (inputs : list string) (remaining : list string)
    (outputStream : option string) (written : string) (call : nat)
    (leftIndentation indentation width : Z)
    (variableName variableType sizeVariableName sizeVariableType : string)
    (zlibCompress : bool) : Written :=
  match remaining with
  | [] => {| succeeded := true; toOutput := ""; toError := "" |}
  | inputFilename :: rest =>
      match openInput outputStream (written ++ contentsComment inputFilename)
              inputFilename with
      | Some inputStream =>
          let prefix := resolvePrefix inputFilename in
          let (success, block) :=
            parseAndDumpInput qCompress (indeterminate call) inputStream
              leftIndentation indentation width
              prefix variableName variableType sizeVariableName
              sizeVariableType zlibCompress in
          if success then
            let others :=
              dumpInputs inputs rest outputStream
                (written ++ contentsComment inputFilename ++ block) (S call)
                leftIndentation indentation width
                variableName variableType sizeVariableName sizeVariableType
                zlibCompress in
            {| succeeded := succeeded others;
               toOutput := contentsComment inputFilename ++ block ++ toOutput others;
               toError := toError others |}
          else
            {| succeeded := false;
               toOutput := contentsComment inputFilename ++ block;
               toError := "" |}
      | None =>
          {| succeeded := false;
             toOutput := "";
             toError := "*** Could not open input file " ++ hd "" inputs ++ endl |}
      end
  end.

(** Lines 227-231: the opening of the namespace. *)
Definition namespaceOpening (namespaceName : string) : string :=
  if isEmpty namespaceName then ""
  else "namespace " ++ namespaceName ++ "{" ++ endl.

(** Lines 233-324: the payloads, behind the text [written]. *)
Definition dumpPayloads (inputs : list string)
    (outputStream : option string) (written : string)
    (leftIndentation indentation width : Z)
    (variableName variableType sizeVariableName sizeVariableType : string)
    (zlibCompress : bool) : Written :=
  match inputs with
  | [] =>
      let (success, block) :=
        parseAndDumpInput qCompress (indeterminate 0)
          (readStandardInput outputStream written)
          leftIndentation indentation
          width "" variableName variableType sizeVariableName
          sizeVariableType zlibCompress in
      {| succeeded := success; toOutput := block; toError := "" |}
  | [inputFilename] =>
      match openInput outputStream written inputFilename with
      | Some inputStream =>
          let (success, block) :=
            parseAndDumpInput qCompress (indeterminate 0) inputStream
              leftIndentation indentation
              width "" variableName variableType sizeVariableName
              sizeVariableType zlibCompress in
          {| succeeded := success; toOutput := block; toError := "" |}
      | None =>
          {| succeeded := false;
             toOutput := "";
             toError := "*** Could not open input file " ++ inputFilename ++ endl |}
      end
  | _ =>
      dumpInputs inputs inputs outputStream written 0
        leftIndentation indentation width
        variableName variableType sizeVariableName sizeVariableType
        zlibCompress
  end.

(** [buildPayloadHelper]; [None] when the banner never ends. *)
Definition buildPayloadHelper (inputs : list string)
    (outputStream : option string)
    (description copyrightMessage : string) (noCopyrightMessage : bool)
    (indentation width : Z)
    (namespaceName variableName variableType sizeVariableName sizeVariableType : string)
    (zlibCompress : bool) : option Written :=
  match banner description copyrightMessage noCopyrightMessage width with
  | None => None
  | Some bannerText =>
      let leftIndentation := if isEmpty namespaceName then 0 else indentation in
      let payloads :=
        dumpPayloads inputs outputStream
          (bannerText ++ namespaceOpening namespaceName)
          leftIndentation indentation width
          variableName variableType sizeVariableName sizeVariableType
          zlibCompress in
      Some {| succeeded := succeeded payloads;
              toOutput := bannerText ++ namespaceOpening namespaceName
                          ++ toOutput payloads;
              toError := toError payloads |}
  end.

(** ** buildPayload *)

(** [std::ofstream outputStream(outputFilename)] empties the file before
    any input is opened. *)
Definition buildPayload (inputs : list string)
    (outputFilename description copyrightMessage : string)
    (noCopyrightMessage : bool) (indentation width : Z)
    (namespaceName variableName variableType sizeVariableName sizeVariableType : string)
    (zlibCompress : bool) : option Outcome :=
  if isEmpty outputFilename then
    match buildPayloadHelper inputs None description copyrightMessage
            noCopyrightMessage indentation width namespaceName variableName
            variableType sizeVariableName sizeVariableType zlibCompress with
    | None => None
    | Some written =>
        Some {| exitStatus := if succeeded written then 0 else 1;
                standardOutput := toOutput written;
                standardError := toError written;
                fileWritten := None |}
    end
  else if outputFile world outputFilename then
    match buildPayloadHelper inputs (Some outputFilename) description
            copyrightMessage noCopyrightMessage indentation width
            namespaceName variableName variableType sizeVariableName
            sizeVariableType zlibCompress with
    | None => None
    | Some written =>
        Some {| exitStatus := if succeeded written then 0 else 1;
                standardOutput := "";
                standardError := toError written;
                fileWritten := Some (outputFilename, toOutput written) |}
    end
  else
    Some {| exitStatus := 1;
            standardOutput := "";
            standardError := "*** Could not open output file "
                             ++ outputFilename ++ "." ++ endl;
            fileWritten := None |}.

(** ** main *)

Definition initialLocals : Locals :=
  {| success := true;
     helpRequested := false;
     description := "";
     outputFilename := "";
     copyrightMessage :=
       "Copyright 2020 Inesonic, LLC." ++ endl ++ "All rights reserved.";
     removeCopyright := false;
     indentation := 4;
     width := 120;
     namespaceName := "";
     variableName := "declarations";
     variableType := "static const unsigned char";
     sizeVariableName := "declarationsSize";
     sizeVariableType := "static const unsigned long";
     useZlib := true;
     inputs := [];
     errors := "" |}.

Definition isSwitch (argument short long : string) : bool :=
  (argument =? short)%string || (argument =? long)%string.

(** [std::cerr << "*** The " << argument << " switch is missing a parameter."]
    and [success = false]. *)
Definition missingParameter (argument : string) (l : Locals) : Locals :=
  set_success false
    (set_errors (errors l ++ "*** The " ++ argument
                 ++ " switch is missing a parameter." ++ endl) l).

(** [std::cerr << "*** Invalid <what> value " << value] and
    [success = false]. *)
Definition invalidValue (what value : string) (l : Locals) : Locals :=
  set_success false
    (set_errors (errors l ++ "*** Invalid " ++ what ++ " value " ++ value
                 ++ endl) l).

(** A switch that takes the next argument as its parameter. *)
Definition withParameter (argument : string) (next : option string)
    (store : string -> Locals -> Locals) (l : Locals) : Locals * bool :=
  match next with
  | Some value => (store value l, true)
  | None => (missingParameter argument l, false)
  end.

(** One round of the argument loop (lines 443-536): the locals after it,
    and whether the next argument was taken as a parameter. *)
Definition handleArgument (argument : string) (next : option string)
    (l : Locals) : Locals * bool :=
  if isSwitch argument "-h" "--help" then (set_helpRequested true l, false)
  else if isSwitch argument "-o" "--output" then
    withParameter argument next set_outputFilename l
  else if isSwitch argument "-c" "--copyright" then
    withParameter argument next set_copyrightMessage l
  else if isSwitch argument "-C" "--no-copyright" then
    (set_removeCopyright true l, false)
  else if isSwitch argument "-i" "--indentation" then
    withParameter argument next
      (fun value l =>
         let l' := set_indentation (to_unsigned (strtoul value)) l in
         if indentation l' <=? 0 then invalidValue "indentation" value l'
         else l') l
  else if isSwitch argument "-w" "--width" then
    withParameter argument next
      (fun value l =>
         let l' := set_width (to_unsigned (strtoul value)) l in
         if indentation l' <=? 0 then invalidValue "width" value l'
         else l') l
  else if isSwitch argument "-n" "--namespace" then
    withParameter argument next set_namespaceName l
  else if isSwitch argument "-v" "--variable" then
    withParameter argument next set_variableName l
  else if isSwitch argument "-t" "--type" then
    withParameter argument next set_variableType l
  else if isSwitch argument "-V" "--size-variable" then
    withParameter argument next set_sizeVariableName l
  else if isSwitch argument "-T" "--size-type" then
    withParameter argument next set_sizeVariableType l
  else if isSwitch argument "-z" "--zlib" then (set_useZlib true l, false)
  else if isSwitch argument "-Z" "--no-zlib" then (set_useZlib false l, false)
  else (set_inputs (inputs l ++ [argument]) l, false).

(** The argument loop (lines 441-539) over [argumentValues] from
    [argumentIndex] on. *)
Fixpoint parseArguments (arguments : list string) (l : Locals) : Locals :=
  if success l && negb (helpRequested l) then
    match arguments with
    | [] => l
    | argument :: rest =>
        let (l', taken) := handleArgument argument (hd_error rest) l in
        match rest with
        | _ :: rest' =>
            if taken then parseArguments rest' l' else parseArguments rest l'
        | [] => parseArguments rest l'
        end
    end
  else l.

(** [main] on the arguments after the program name. *)
Definition main (arguments : list string) : option Outcome :=
  let l := parseArguments arguments initialLocals in
  if helpRequested l then
    Some {| exitStatus := if success l then 0 else 1;
            standardOutput := helpText;
            standardError := errors l;
            fileWritten := None |}
  else if success l then
    match buildPayload (inputs l) (outputFilename l) (description l)
            (copyrightMessage l) (removeCopyright l) (indentation l) (width l)
            (namespaceName l) (variableName l) (variableType l)
            (sizeVariableName l) (sizeVariableType l) (useZlib l) with
    | None => None
    | Some outcome =>
        Some {| exitStatus := exitStatus outcome;
                standardOutput := standardOutput outcome;
                standardError := errors l ++ standardError outcome;
                fileWritten := fileWritten outcome |}
    end
  else
    Some {| exitStatus := 1;
            standardOutput := "";
            standardError := errors l;
            fileWritten := None |}.

End Platform.

(** ** A small environment for the examples *)

(** Two readable files, [a.bin] and [c.bin]; nothing else can be read;
    every output file can be written. *)
Definition exampleWorld : World :=
  {| standardInput := [];
     inputFile := fun name =>
       if (name =? "a.bin")%string then Some [x01; x02]
       else if (name =? "c.bin")%string then Some [x03]
       else None;
     outputFile := fun _ => true;
     sameFile := fun _ _ => false;
     standardInputFrom := fun _ => false |}.

(** Stands for [qCompress] in examples that run without compression. *)
Definition unusedCompressor : list byte -> Z -> list byte :=
  fun data _ => data.

(** The value [x00] for the uninitialised [readData] of every call. *)
Definition zeroBytes : nat -> byte := fun _ => x00.

(** The contents [std::ifstream] reads from a file it can open. *)
Definition contentsOf (world : World) (inputFilename : string) : list byte :=
  match inputFile world inputFilename with
  | Some contents => contents
  | None => []
  end.

(** The comment line and the block written for the input [inputFilename],
    read from the files of [world], in the call number [call]. *)
Definition blockOf (qCompress : list byte -> Z -> list byte)
    (indeterminate : nat -> byte) (world : World)
    (leftIndentation indentation width : Z)
    (variableName variableType sizeVariableName sizeVariableType : string)
    (zlibCompress : bool) (call : nat) (inputFilename : string) : string :=
  contentsComment inputFilename
  ++ snd (parseAndDumpInput qCompress (indeterminate call)
            (contentsOf world inputFilename) leftIndentation indentation width
            (resolvePrefix inputFilename) variableName variableType
            sizeVariableName sizeVariableType zlibCompress).

(** The blocks of the inputs [names], read from the files of [world], in
    the calls number [call], [call + 1], ... *)
Fixpoint blocksOf (qCompress : list byte -> Z -> list byte)
    (indeterminate : nat -> byte) (world : World)
    (leftIndentation indentation width : Z)
    (variableName variableType sizeVariableName sizeVariableType : string)
    (zlibCompress : bool) (call : nat) (names : list string) : string :=
  match names with
  | [] => ""
  | name :: rest =>
      blockOf qCompress indeterminate world leftIndentation indentation width
        variableName variableType sizeVariableName sizeVariableType
        zlibCompress call name
      ++ blocksOf qCompress indeterminate world leftIndentation indentation
           width variableName variableType sizeVariableName sizeVariableType
           zlibCompress (S call) rest
  end.

(** ** Reading the generated text back

    The claims speak of lines, tokens and separators of the generated
    text; these functions recover them from the characters written. *)

(** Characters that cannot be part of a token. *)
Definition isDelimiter (c : ascii) : bool :=
  Ascii.eqb c " " || Ascii.eqb c "," || isNewline c.

(** The text split at its line feeds: ["a\nb"] is [["a"; "b"]]. *)
Fixpoint lines (text : string) : list string :=
  match text with
  | "" => [""]
  | String c rest =>
      if isNewline c then "" :: lines rest else consHead c (lines rest)
  end.

(** The maximal runs of characters that are not delimiters, in order. *)
Fixpoint tokens (text : string) : list string :=
  match text with
  | "" => []
  | String c rest =>
      if isDelimiter c then tokens rest
      else match rest with
           | "" => [String c ""]
           | String d _ =>
               if isDelimiter d then String c "" :: tokens rest
               else consHead c (tokens rest)
           end
  end.

(** The value of an upper-case hexadecimal digit. *)
Definition upperHexValue (c : ascii) : option N :=
  let n := N_of_ascii c in
  if ((48 <=? n) && (n <=? 57))%N then Some (n - 48)%N
  else if ((65 <=? n) && (n <=? 70))%N then Some (n - 55)%N
  else None.

(** The value a token [0xHH] of two upper-case hexadecimal digits stands
    for; [None] for any other text. *)
Definition tokenValue (token : string) : option N :=
  match token with
  | String zero (String x (String high (String low ""))) =>
      if Ascii.eqb zero "0" && Ascii.eqb x "x" then
        match upperHexValue high, upperHexValue low with
        | Some h, Some l => Some (16 * h + l)%N
        | _, _ => None
        end
      else None
  | _ => None
  end.

(** [text] begins with [pattern]. *)
Fixpoint startsWith (pattern text : string) : bool :=
  match pattern, text with
  | "", _ => true
  | String _ _, "" => false
  | String a p, String b t => Ascii.eqb a b && startsWith p t
  end.

(** Number of places of [text] at which [pattern] starts. *)
Fixpoint occurrences (pattern text : string) : nat :=
  match text with
  | "" => O
  | String _ rest =>
      ((if startsWith pattern text then 1 else 0) + occurrences pattern rest)%nat
  end.

(** Number of tokens on every line of [text]. *)
Definition tokensPerLine (text : string) : list nat :=
  map (fun l => List.length (tokens l)) (lines text).

(** The wrapped lines of an array body: the body starts on the header
    line, right after the opening brace, so its first line is the (empty)
    rest of that line and the array's own lines follow. *)
Definition wrappedLineCounts (body : string) : list nat :=
  tl (tokensPerLine body).

(** "Every wrapped line carries exactly [perLine] tokens except possibly
    the final line, which carries [n mod perLine] tokens (or [perLine] if
    that remainder is 0 and there are [n > 0] bytes)." *)
Definition wrapsEvery (perLine : Z) (counts : list nat) (n : nat) : Prop :=
  (forall k, (S k < List.length counts)%nat -> Z.of_nat (nth k counts O) = perLine)
  /\ (n <> O ->
      Z.of_nat (last counts O)
      = if Z.of_nat n mod perLine =? 0 then perLine else Z.of_nat n mod perLine).

(** The layout rule as the specification words it, with [valuesPerLine]
    the quotient of the mathematical integers. *)
Definition wrapsAsSpecified (leftIndentation indentation width : Z)
    (B : list byte) : Prop :=
  let perLine := (width - indentation - leftIndentation + 1) / 6 in
  valuesPerLine leftIndentation indentation width = perLine
  /\ wrapsEvery perLine
       (wrappedLineCounts (arrayBody leftIndentation indentation width B))
       (List.length B).

(** One more token on the first line. *)
Definition bump (counts : list nat) : list nat :=
  match counts with
  | [] => [1%nat]
  | c :: rest => S c :: rest
  end.

(** The sizes of the groups when [n] items are cut into groups of [g]. *)
Definition chunkSizes (g n : nat) : list nat :=
  repeat g (n / g) ++ (if (n mod g =? 0)%nat then [] else [(n mod g)%nat]).

(** ** Lines inside a namespace *)

(** [s] holds no line feed. *)
Fixpoint newlineFree (s : string) : bool :=
  match s with
  | "" => true
  | String c rest => negb (isNewline c) && newlineFree rest
  end.

(** [line] starts with [indentation] spaces. *)
Definition indented (indentation : Z) (line : string) : bool :=
  startsWith (spaces (Z.to_nat indentation)) line.

(** Every line of [text] starts with [indentation] spaces. *)
Definition everyLineIndented (indentation : Z) (text : string) : Prop :=
  Forall (fun line => indented indentation line = true) (getlines text).

(** [line] moved right by [columns]; a blank line stays blank. *)
Definition shiftedBy (columns : nat) (line : string) : string :=
  if isEmpty line then "" else spaces columns ++ line.

Definition shifted (indentation : Z) (line : string) : string :=
  shiftedBy (Z.to_nat indentation) line.

(** A part of the payloads: what stands in front of a block, the bytes
    of the block and the prefix of its names. *)
Definition Piece : Type := string * list byte * string.

(** What stands in front of a block: nothing, or the [// Contents of]
    line of an input, whose left margin is left open. *)
Definition isLead (lead : string) : Prop :=
  lead = ""
  \/ exists margin name,
       newlineFree name = true
       /\ lead = spaces margin ++ "// Contents of " ++ name ++ ":" ++ endl.

(** The text of a piece in the layout given. *)
Definition pieceText (leftIndentation indentation width : Z)
    (variableName variableType sizeVariableName sizeVariableType : string)
    (piece : Piece) : string :=
  fst (fst piece)
  ++ dumpOutput (snd (fst piece)) leftIndentation indentation width
       (snd piece) variableName variableType sizeVariableName sizeVariableType.

(** The lines a piece has inside a namespace: the lines in front of its
    block, then the lines of the block as it is written outside a
    namespace at the width [width - indentation], every line that is not
    blank moved right by [indentation]. *)
Definition pieceLinesInNamespace (indentation width : Z)
    (variableName variableType sizeVariableName sizeVariableType : string)
    (piece : Piece) : list string :=
  (getlines (fst (fst piece))
   ++ map (shifted indentation)
        (getlines
           (dumpOutput (snd (fst piece)) 0 indentation (width - indentation)
              (snd piece) variableName variableType sizeVariableName
              sizeVariableType)))%list.

(** [output] is the banner, the opening line of the namespace, and then a
    text for which [Q] holds. *)
Definition afterNamespaceOpening (output bannerText namespaceName : string)
    (Q : string -> Prop) : Prop :=
  exists payloads,
    output = bannerText ++ ("namespace " ++ namespaceName ++ "{" ++ endl) ++ payloads
    /\ Q payloads.

(** ** Braces *)

Definition isBrace (c : ascii) : bool := Ascii.eqb c "{" || Ascii.eqb c "}".

(** [s] holds no brace. *)
Fixpoint braceFree (s : string) : bool :=
  match s with
  | "" => true
  | String c rest => negb (isBrace c) && braceFree rest
  end.

(** The number of scopes open at the end of [text], when [depth] scopes
    opened by [text] itself are open at its start: an opening brace
    opens one, a closing brace closes the innermost one.  [None] when
    [text] has a closing brace that closes none of the scopes it has
    opened, that is, one that closes a scope opened in front of
    [text]. *)
Fixpoint nesting (depth : nat) (text : string) : option nat :=
  match text with
  | "" => Some depth
  | String c rest =>
      if Ascii.eqb c "{" then nesting (S depth) rest
      else if Ascii.eqb c "}" then
        match depth with
        | O => None
        | S outer => nesting outer rest
        end
      else nesting depth rest
  end.

(** ** The state of the argument loop *)

(** What the argument loop has written when it turns [success] off: a
    switch without its parameter, or an indentation of 0. *)
Definition isOptionError (strtoul : string -> Z) (text : string) : Prop :=
  (exists argument,
      text = "*** The " ++ argument ++ " switch is missing a parameter." ++ endl)
  \/ (exists value,
      to_unsigned (strtoul value) = 0
      /\ text = "*** Invalid indentation value " ++ value ++ endl).

(** Either the loop has met no error, has written nothing and holds a
    positive indentation, or it has stopped on an option error (and then
    not on a request for help). *)
Definition argumentsInvariant (strtoul : string -> Z) (l : Locals) : Prop :=
  (success l = true /\ errors l = "" /\ 0 < indentation l)
  \/ (success l = false /\ helpRequested l = false
      /\ isOptionError strtoul (errors l)).

(** Reads an unsigned decimal numeral; stands for [strtoul] in the
    examples. *)
Fixpoint decimalValue (value : Z) (text : string) : Z :=
  match text with
  | "" => value
  | String c rest =>
      let digit := Z.of_nat (nat_of_ascii c) - 48 in
      if (0 <=? digit) && (digit <=? 9)
      then decimalValue (10 * value + digit) rest
      else value
  end.

(** A stand-in for [qCompress] in examples that run with compression:
    it returns the bytes as they are. *)
Definition exampleCompressor : list byte -> Z -> list byte :=
  fun data _ => data.

(** ** Further readings of the text and of the command line *)

(** The length of [line] without the blanks at its end. *)
Fixpoint visibleLength (line : string) : nat :=
  match line with
  | "" => O
  | String c rest =>
      match visibleLength rest with
      | O => if Ascii.eqb c " " then O else 1%nat
      | S n => S (S n)
      end
  end.

(** Every spelling the argument loop compares an argument with. *)
Definition knownSwitches : list string :=
  ["-h"; "--help"; "-o"; "--output"; "-c"; "--copyright";
   "-C"; "--no-copyright"; "-i"; "--indentation"; "-w"; "--width";
   "-n"; "--namespace"; "-v"; "--variable"; "-t"; "--type";
   "-V"; "--size-variable"; "-T"; "--size-type";
   "-z"; "--zlib"; "-Z"; "--no-zlib"].

(** The spellings of the switches that take the next argument. *)
Definition parameterSwitches : list string :=
  ["-o"; "--output"; "-c"; "--copyright"; "-i"; "--indentation";
   "-w"; "--width"; "-n"; "--namespace"; "-v"; "--variable";
   "-t"; "--type"; "-V"; "--size-variable"; "-T"; "--size-type"].

(** [argument] is none of the switches: the loop takes it as an input. *)
Definition isFile (argument : string) : bool :=
  negb (existsb (String.eqb argument) knownSwitches).

(** A line of its own for every element of [ls]. *)
Definition unlines (ls : list string) : string :=
  joined (map (fun line => line ++ endl) ls).

(** * Properties *)

(** ** Strings *)

Lemma append_assoc (a b c : string) : (a ++ b) ++ c = a ++ (b ++ c).
Proof. induction a as [|x a IH]; cbn; [reflexivity | now rewrite IH]. Qed.

Lemma append_nil_r (a : string) : a ++ "" = a.
Proof. induction a as [|x a IH]; cbn; [reflexivity | now rewrite IH]. Qed.

(** ** Machine arithmetic *)

Ltac bounds :=
  unfold is_unsigned in *; unfold INT_MAX, UINT_MAX in *;
  cbn [List.length] in *; lia.

Lemma to_unsigned_long_small z : 0 <= z <= INT_MAX -> to_unsigned_long z = z.
Proof.
  intros H. unfold to_unsigned_long. apply Z.mod_small. bounds.
Qed.

Lemma to_unsigned_small z : is_unsigned z -> to_unsigned z = z.
Proof.
  intros H. unfold to_unsigned. apply Z.mod_small. bounds.
Qed.

(** ** Tokens of the array body *)

Lemma tokens_spaces k s : tokens (spaces k ++ s) = tokens s.
Proof. induction k as [|k IH]; [reflexivity | exact IH]. Qed.

Lemma tokens_endl s : tokens (endl ++ s) = tokens s.
Proof. reflexivity. Qed.

Lemma tokens_value_separator v s :
  tokens (sprintf_0x02X v ++ ", " ++ s) = sprintf_0x02X v :: tokens s.
Proof. destruct v; reflexivity. Qed.

Lemma tokens_value_last v : tokens (sprintf_0x02X v ++ "") = [sprintf_0x02X v].
Proof. destruct v; reflexivity. Qed.

Lemma tokens_break (b : bool) k s :
  tokens ((if b then endl ++ spaces k else "") ++ s) = tokens s.
Proof.
  destruct b; [|reflexivity].
  now rewrite append_assoc, tokens_endl, tokens_spaces.
Qed.

(** The test [i < numberBytes - 1] of line 122 holds exactly when bytes
    remain after the current one. *)
Lemma separator_test n i (rest : list byte) :
  0 <= i -> i + Z.of_nat (S (List.length rest)) = n -> n <= INT_MAX ->
  (i <? to_unsigned_long (n - 1)) = negb (Nat.eqb (List.length rest) 0).
Proof.
  intros Hi Hn Hmax.
  rewrite to_unsigned_long_small by bounds.
  destruct rest; cbn [List.length Nat.eqb negb].
  - apply Z.ltb_ge. bounds.
  - apply Z.ltb_lt. bounds.
Qed.

Lemma dumpValues_tokens k perLine n rest : forall i valuesThisLine,
  0 <= i -> i + Z.of_nat (List.length rest) = n -> n <= INT_MAX ->
  tokens (dumpValues (spaces k) perLine n i valuesThisLine rest)
  = map sprintf_0x02X rest.
Proof.
  induction rest as [|v rest IH]; intros i vtl Hi Hn Hmax; [reflexivity|].
  cbn [dumpValues map]. rewrite tokens_break.
  rewrite (separator_test n i rest) by assumption.
  destruct rest as [|w rest].
  - cbn [List.length Nat.eqb negb dumpValues]. apply tokens_value_last.
  - cbn [List.length Nat.eqb negb].
    rewrite tokens_value_separator. f_equal.
    apply IH; rewrite ?to_unsigned_long_small; bounds.
Qed.

(** ** Separators of the array body *)

Lemma separators_spaces k s :
  occurrences ", " (spaces k ++ s) = occurrences ", " s.
Proof. induction k as [|k IH]; [reflexivity | exact IH]. Qed.

Lemma separators_value_separator v s :
  occurrences ", " (sprintf_0x02X v ++ ", " ++ s) = S (occurrences ", " s).
Proof. destruct v; reflexivity. Qed.

Lemma separators_value_last v : occurrences ", " (sprintf_0x02X v ++ "") = O.
Proof. destruct v; reflexivity. Qed.

Lemma separators_break (b : bool) k s :
  occurrences ", " ((if b then endl ++ spaces k else "") ++ s)
  = occurrences ", " s.
Proof.
  destruct b; [|reflexivity].
  rewrite append_assoc. cbn. apply separators_spaces.
Qed.

Lemma dumpValues_separators k perLine n rest : forall i valuesThisLine,
  0 <= i -> i + Z.of_nat (List.length rest) = n -> n <= INT_MAX ->
  occurrences ", " (dumpValues (spaces k) perLine n i valuesThisLine rest)
  = (List.length rest - 1)%nat.
Proof.
  induction rest as [|v rest IH]; intros i vtl Hi Hn Hmax; [reflexivity|].
  cbn [dumpValues]. rewrite separators_break.
  rewrite (separator_test n i rest) by assumption.
  destruct rest as [|w rest].
  - cbn [List.length Nat.eqb negb dumpValues]. apply separators_value_last.
  - cbn [List.length Nat.eqb negb].
    rewrite separators_value_separator.
    rewrite IH; rewrite ?to_unsigned_long_small; bounds.
Qed.

(** The body ends with the token of the last byte: nothing follows it. *)
Lemma dumpValues_ends_with_last k perLine n rest : forall i valuesThisLine,
  0 <= i -> i + Z.of_nat (List.length rest) = n -> n <= INT_MAX ->
  rest <> [] ->
  exists front,
    dumpValues (spaces k) perLine n i valuesThisLine rest
    = front ++ sprintf_0x02X (last rest x00).
Proof.
  induction rest as [|v rest IH]; intros i vtl Hi Hn Hmax Hne; [congruence|].
  cbn [dumpValues].
  rewrite (separator_test n i rest) by assumption.
  destruct rest as [|w rest].
  - cbn [List.length Nat.eqb negb dumpValues last].
    exists (if perLine <=? vtl then endl ++ spaces k else "").
    now rewrite !append_nil_r.
  - cbn [List.length Nat.eqb negb].
    destruct (IH (to_unsigned_long (i + 1))
                 (if perLine <=? vtl then 1 else to_unsigned (vtl + 1)))
      as [front Hfront];
      rewrite ?to_unsigned_long_small; try congruence; try bounds.
    rewrite to_unsigned_long_small in Hfront by bounds.
    rewrite Hfront.
    exists ((if perLine <=? vtl then endl ++ spaces k else "")
            ++ sprintf_0x02X v ++ ", " ++ front).
    now rewrite !append_assoc.
Qed.

Lemma tokenValue_sprintf v : tokenValue (sprintf_0x02X v) = Some (Byte.to_N v).
Proof. destruct v; reflexivity. Qed.

(** C2.  For every byte sequence [B] (of a size a [QByteArray] can have)
    and every layout, the tokens of the array body written by the loop of
    lines 108-125 are exactly the two-digit upper-case hexadecimal
    encodings [0xHH] of the bytes of [B], in order: token [i] is what
    [sprintf] writes for [B[i]] and reads back as the value of [B[i]].
    There are [len B] tokens and [len B - 1] separators [", "] (none for
    the empty sequence), and no separator follows the last token. *)
Theorem arrayBody_tokens_and_separators :
  forall (leftIndentation indentation width : Z) (B : list byte),
    Z.of_nat (List.length B) <= INT_MAX ->
    let body := arrayBody leftIndentation indentation width B in
    tokens body = map sprintf_0x02X B
    /\ map tokenValue (tokens body) = map (fun b => Some (Byte.to_N b)) B
    /\ List.length (tokens body) = List.length B
    /\ occurrences ", " body = (List.length B - 1)%nat
    /\ (B <> [] -> exists front, body = front ++ sprintf_0x02X (last B x00)).
Proof.
  intros left ind width B Hmax body.
  assert (Htok : tokens body = map sprintf_0x02X B)
    by (apply dumpValues_tokens with (n := Z.of_nat (List.length B)); lia).
  split; [exact Htok|].
  split.
  { rewrite Htok, map_map. apply map_ext. exact tokenValue_sprintf. }
  split; [rewrite Htok; apply length_map|].
  split.
  - apply dumpValues_separators with (n := Z.of_nat (List.length B)); lia.
  - apply dumpValues_ends_with_last with (n := Z.of_nat (List.length B)); lia.
Qed.

Lemma arrayBody_tokens_and_separators_witness :
  Z.of_nat (List.length [xde; xad; xbe; xef]) <= INT_MAX
  /\ tokens (arrayBody 0 4 120 [xde; xad; xbe; xef])
     = ["0xDE"; "0xAD"; "0xBE"; "0xEF"]
  /\ occurrences ", " (arrayBody 0 4 120 [xde; xad; xbe; xef]) = 3%nat.
Proof.
  assert (H : Z.of_nat (List.length [xde; xad; xbe; xef]) <= INT_MAX)
    by (vm_compute; discriminate).
  split; [exact H|].
  destruct (arrayBody_tokens_and_separators 0 4 120 [xde; xad; xbe; xef] H)
    as (Htok & _ & _ & Hsep & _).
  split; [exact Htok | exact Hsep].
Defined.

(** ** Lines of the array body *)

Lemma lines_nonempty s : lines s <> [].
Proof.
  destruct s as [|c s]; cbn; [discriminate|].
  destruct (isNewline c); [discriminate|].
  destruct (lines s); discriminate.
Qed.

Lemma tokensPerLine_endl s : tokensPerLine (endl ++ s) = O :: tokensPerLine s.
Proof. reflexivity. Qed.

Lemma tokensPerLine_spaces k s : tokensPerLine (spaces k ++ s) = tokensPerLine s.
Proof.
  unfold tokensPerLine. induction k as [|k IH]; [reflexivity|].
  cbn [spaces append lines]. change (isNewline " ") with false. cbv iota.
  pose proof (lines_nonempty (spaces k ++ s)) as Hk.
  pose proof (lines_nonempty s) as Hs.
  destruct (lines (spaces k ++ s)) as [|l ls]; [congruence|].
  destruct (lines s) as [|l' ls']; [congruence|].
  cbn [consHead map] in *. injection IH as Hhd Htl.
  f_equal; assumption.
Qed.

Lemma tokensPerLine_value_separator v s :
  tokensPerLine (sprintf_0x02X v ++ ", " ++ s) = bump (tokensPerLine s).
Proof.
  unfold tokensPerLine.
  pose proof (lines_nonempty s) as Hs.
  assert (H : lines (sprintf_0x02X v ++ ", " ++ s)
              = (sprintf_0x02X v ++ ", " ++ hd "" (lines s)) :: tl (lines s)).
  { destruct (lines s) as [|l ls] eqn:E; [congruence|].
    destruct v; cbn; rewrite E; reflexivity. }
  rewrite H. destruct (lines s) as [|l ls]; [congruence|].
  cbn [hd tl map bump]. now rewrite tokens_value_separator.
Qed.

Lemma tokensPerLine_value_last v :
  tokensPerLine (sprintf_0x02X v ++ "") = bump (tokensPerLine "").
Proof. destruct v; reflexivity. Qed.

Lemma tokensPerLine_break (b : bool) k s :
  tokensPerLine ((if b then endl ++ spaces k else "") ++ s)
  = if b then O :: tokensPerLine s else tokensPerLine s.
Proof.
  destruct b; [|reflexivity].
  now rewrite append_assoc, tokensPerLine_endl, tokensPerLine_spaces.
Qed.

(** ** Group sizes *)

Lemma chunkSizes_0 g : chunkSizes g 0 = [].
Proof.
  unfold chunkSizes. destruct g as [|g]; [reflexivity|].
  rewrite Nat.Div0.div_0_l, Nat.Div0.mod_0_l. reflexivity.
Qed.

Lemma chunkSizes_step g m :
  (0 < g)%nat -> (0 < m)%nat ->
  chunkSizes g m = Nat.min g m :: chunkSizes g (m - Nat.min g m).
Proof.
  intros Hg Hm. destruct (Nat.lt_ge_cases m g) as [Hlt | Hge].
  - rewrite Nat.min_r by lia. rewrite Nat.sub_diag, chunkSizes_0.
    unfold chunkSizes. rewrite Nat.div_small, Nat.mod_small by assumption.
    destruct (Nat.eqb_spec m 0); [lia | reflexivity].
  - rewrite Nat.min_l by assumption.
    assert (Hd : (m / g = S ((m - g) / g))%nat).
    { replace m with ((m - g) + 1 * g)%nat at 1 by lia.
      rewrite Nat.div_add by lia. lia. }
    assert (Hr : (m mod g = (m - g) mod g)%nat).
    { replace m with ((m - g) + 1 * g)%nat at 1 by lia.
      apply Nat.Div0.mod_add. }
    unfold chunkSizes. rewrite Hd, Hr. reflexivity.
Qed.

Lemma chunkSizes_wrapsEvery g n :
  (0 < g)%nat -> wrapsEvery (Z.of_nat g) (chunkSizes g n) n.
Proof.
  intros Hg. unfold wrapsEvery, chunkSizes. split.
  - intros k Hk. rewrite length_app, repeat_length in Hk.
    assert (Hlt : (k < n / g)%nat)
      by (destruct (n mod g =? 0)%nat; cbn [List.length] in Hk; lia).
    rewrite app_nth1 by (now rewrite repeat_length).
    now rewrite nth_repeat_lt.
  - intros Hn. rewrite <- Nat2Z.inj_mod.
    destruct (Nat.eqb_spec (n mod g) 0) as [E | E].
    + rewrite E. cbn [Z.of_nat Z.eqb]. rewrite app_nil_r.
      assert (Hq : (n / g <> 0)%nat).
      { intros Hq. pose proof (Nat.div_mod_eq n g) as D. rewrite E, Hq in D. lia. }
      destruct (n / g)%nat as [|q]; [congruence|].
      replace (S q) with (q + 1)%nat by lia.
      rewrite repeat_app. cbn [repeat]. now rewrite last_last.
    + rewrite last_last.
      destruct (Z.eqb_spec (Z.of_nat (n mod g)) 0); [lia | reflexivity].
Qed.

(** ** Wrapping of the array body *)

(** The loop in any state: [perLine - valuesThisLine] more tokens go to
    the current line, the others are cut into groups of
    [max perLine 1]. *)
Lemma dumpValues_tokensPerLine k perLine n rest : forall i valuesThisLine,
  0 <= i -> i + Z.of_nat (List.length rest) = n -> n <= INT_MAX ->
  0 <= valuesThisLine -> perLine <= UINT_MAX ->
  let room := Z.to_nat (perLine - valuesThisLine) in
  let m := List.length rest in
  tokensPerLine (dumpValues (spaces k) perLine n i valuesThisLine rest)
  = Nat.min room m
    :: chunkSizes (Z.to_nat (Z.max perLine 1)) (m - Nat.min room m).
Proof.
  induction rest as [|v rest IH]; intros i vtl Hi Hn Hmax Hvtl Hper room m.
  - subst m. cbn [List.length dumpValues].
    rewrite Nat.min_0_r, chunkSizes_0. reflexivity.
  - cbn [dumpValues]. rewrite tokensPerLine_break.
    assert (Hvalue :
      tokensPerLine
        (sprintf_0x02X v
         ++ (if i <? to_unsigned_long (n - 1) then ", " else "")
         ++ dumpValues (spaces k) perLine n (to_unsigned_long (i + 1))
              (if perLine <=? vtl then 1 else to_unsigned (vtl + 1)) rest)
      = bump (tokensPerLine
                (dumpValues (spaces k) perLine n (to_unsigned_long (i + 1))
                   (if perLine <=? vtl then 1 else to_unsigned (vtl + 1)) rest))).
    { rewrite (separator_test n i rest) by assumption.
      destruct rest as [|w rest].
      - cbn [List.length Nat.eqb negb dumpValues]. apply tokensPerLine_value_last.
      - cbn [List.length Nat.eqb negb]. apply tokensPerLine_value_separator. }
    rewrite Hvalue. clear Hvalue.
    rewrite to_unsigned_long_small by bounds.
    destruct (Z.leb_spec perLine vtl) as [Hfull | Hroom].
    + rewrite IH by bounds. cbn [bump].
      replace room with O by (subst room; lia).
      subst m. cbn [List.length Nat.min Nat.sub].
      rewrite (chunkSizes_step _ (S (List.length rest))) by lia.
      replace (Z.to_nat (Z.max perLine 1)) with (S (Z.to_nat (perLine - 1))) by lia.
      reflexivity.
    + rewrite to_unsigned_small by bounds.
      rewrite IH by bounds. cbn [bump].
      replace room with (S (Z.to_nat (perLine - (vtl + 1)))) by (subst room; lia).
      subst m. reflexivity.
Qed.

Lemma valuesPerLine_range leftIndentation indentation width :
  0 <= valuesPerLine leftIndentation indentation width <= UINT_MAX.
Proof.
  unfold valuesPerLine, to_unsigned, UINT_MAX.
  pose proof (Z.mod_pos_bound (width - indentation - leftIndentation + 1) (2 ^ 32)
                ltac:(lia)) as H.
  split.
  - apply Z.div_pos; lia.
  - apply Z.div_le_upper_bound; lia.
Qed.

Lemma arrayBody_wrappedLineCounts leftIndentation indentation width B :
  Z.of_nat (List.length B) <= INT_MAX ->
  wrappedLineCounts (arrayBody leftIndentation indentation width B)
  = chunkSizes (Z.to_nat (Z.max (valuesPerLine leftIndentation indentation width) 1))
      (List.length B).
Proof.
  intros Hmax. unfold wrappedLineCounts, arrayBody, contentsIndentationString.
  pose proof (valuesPerLine_range leftIndentation indentation width) as Hr.
  rewrite dumpValues_tokensPerLine with (n := Z.of_nat (List.length B)) by lia.
  rewrite Z.sub_diag. cbn [Z.to_nat Nat.min tl]. now rewrite Nat.sub_0_r.
Qed.

(** C5, the claim as worded fails: with [width = 8] and
    [indentation = 4] the quotient is 0 and every line carries one token,
    not zero; with [width = 4] and 8 columns of indentation the
    subtraction wraps around and [valuesPerLine] is not the quotient of
    the integers. *)
Lemma wrapsAsSpecified_counterexample :
  ~ wrapsAsSpecified 0 4 8 [x00; x01; x02]
  /\ ~ wrapsAsSpecified 4 4 4 [x00; x01; x02].
Proof.
  split; intros [Hper Hwrap].
  - destruct Hwrap as [Hall _].
    specialize (Hall O). vm_compute in Hall.
    specialize (Hall (le_S _ _ (le_n _))). discriminate.
  - vm_compute in Hper. discriminate.
Qed.

(** C5, amended.  [valuesPerLine] is computed once, in [unsigned]
    arithmetic, as [((width - indentation - leftIndentation + 1) mod 2^32) / 6];
    it is the quotient [(width - indentation - leftIndentation + 1) / 6]
    whenever [0 <= width - indentation - leftIndentation + 1 < 2^32].  With
    [g = max valuesPerLine 1], every wrapped line carries exactly [g]
    tokens except possibly the final line, which carries [len B mod g]
    tokens (or [g] if that remainder is 0 and [B] is not empty). *)
Theorem arrayBody_wraps :
  forall (leftIndentation indentation width : Z) (B : list byte),
    Z.of_nat (List.length B) <= INT_MAX ->
    let perLine := valuesPerLine leftIndentation indentation width in
    let counts := wrappedLineCounts (arrayBody leftIndentation indentation width B) in
    perLine = ((width - indentation - leftIndentation + 1) mod 2 ^ 32) / 6
    /\ (is_unsigned (width - indentation - leftIndentation + 1) ->
        perLine = (width - indentation - leftIndentation + 1) / 6)
    /\ wrapsEvery (Z.max perLine 1) counts (List.length B)
    /\ counts = chunkSizes (Z.to_nat (Z.max perLine 1)) (List.length B).
Proof.
  intros left ind width B Hmax perLine counts.
  split; [reflexivity|].
  split.
  - intros Hfit. subst perLine. unfold valuesPerLine.
    now rewrite to_unsigned_small.
  - assert (Hcounts : counts
                      = chunkSizes (Z.to_nat (Z.max perLine 1)) (List.length B))
      by (apply arrayBody_wrappedLineCounts; assumption).
    split; [|exact Hcounts].
    rewrite Hcounts.
    replace (Z.max perLine 1) with (Z.of_nat (Z.to_nat (Z.max perLine 1))) at 1 by lia.
    apply chunkSizes_wrapsEvery. lia.
Qed.

Lemma arrayBody_wraps_witness :
  wrappedLineCounts (arrayBody 0 4 20 [xde; xad; xbe; xef; x00])
  = [2%nat; 2%nat; 1%nat].
Proof.
  assert (H : Z.of_nat (List.length [xde; xad; xbe; xef; x00]) <= INT_MAX)
    by (vm_compute; discriminate).
  destruct (arrayBody_wraps 0 4 20 [xde; xad; xbe; xef; x00] H)
    as (_ & _ & _ & Hcounts).
  rewrite Hcounts. reflexivity.
Defined.

(** ** Compression *)

(** Without compression the bytes are passed on unchanged. *)
Lemma compress_disabled qCompress byteArray :
  compress qCompress byteArray false = byteArray.
Proof. reflexivity. Qed.

(** With compression the bytes are handed to [qCompress] at level 9. *)
Lemma compress_enabled qCompress byteArray :
  compress qCompress byteArray true = qCompress byteArray 9.
Proof. reflexivity. Qed.

(** ** The read loop *)

Lemma readInput_app g inputStream : readInput g inputStream = (inputStream ++ [g])%list.
Proof. induction inputStream as [|b rest IH]; cbn; [reflexivity | now rewrite IH]. Qed.

Lemma readInput_length g inputStream :
  List.length (readInput g inputStream) = S (List.length inputStream).
Proof. rewrite readInput_app, length_app. cbn. lia. Qed.

(** The formatter by itself, on exactly the four bytes and on no byte,
    writes what a faithful read would lead to: the extra element comes
    from the read loop alone. *)
Lemma dumpOutput_four_bytes
    (prefix variableName variableType sizeVariableName sizeVariableType : string) :
  dumpOutput [xde; xad; xbe; xef] 0 4 120
    prefix variableName variableType sizeVariableName sizeVariableType
  = variableType ++ " " ++ prefix ++ variableName ++ "[4] = {" ++ endl
    ++ "    0xDE, 0xAD, 0xBE, 0xEF" ++ endl
    ++ "};" ++ endl
    ++ endl
    ++ sizeVariableType ++ " " ++ prefix ++ sizeVariableName ++ " = 4;" ++ endl
    ++ endl.
Proof. reflexivity. Qed.

Lemma dumpOutput_no_bytes (leftIndentation indentation width : Z)
    (prefix variableName variableType sizeVariableName sizeVariableType : string) :
  dumpOutput [] leftIndentation indentation width
    prefix variableName variableType sizeVariableName sizeVariableType
  = leftIndentationString leftIndentation
    ++ variableType ++ " " ++ prefix ++ variableName ++ "[0] = {" ++ endl
    ++ leftIndentationString leftIndentation ++ "};" ++ endl
    ++ endl
    ++ leftIndentationString leftIndentation
    ++ sizeVariableType ++ " " ++ prefix ++ sizeVariableName ++ " = 0;" ++ endl
    ++ endl.
Proof. reflexivity. Qed.

(** C1.  What the code does on the stream [0xDE,0xAD,0xBE,0xEF] without
    compression, [width = 120], [indentation = 4]: the read loop pushes
    one more byte after the end of the stream, so the array is declared
    with 5 elements, its content line has a fifth token for the
    indeterminate byte [g], and the size constant is 5 (the claim says one
    line [0xDE, 0xAD, 0xBE, 0xEF] and the size 4). *)
Theorem parseAndDumpInput_four_bytes :
  forall qCompress (g : byte)
         (prefix variableName variableType sizeVariableName sizeVariableType : string),
    parseAndDumpInput qCompress g [xde; xad; xbe; xef] 0 4 120
      prefix variableName variableType sizeVariableName sizeVariableType false
    = (true,
       variableType ++ " " ++ prefix ++ variableName ++ "[5] = {" ++ endl
       ++ "    0xDE, 0xAD, 0xBE, 0xEF, " ++ sprintf_0x02X g ++ endl
       ++ "};" ++ endl
       ++ endl
       ++ sizeVariableType ++ " " ++ prefix ++ sizeVariableName ++ " = 5;" ++ endl
       ++ endl).
Proof. intros. reflexivity. Qed.

(** C8.  What the code does on an empty stream without compression, in
    any layout: the read loop still pushes one byte, so the array is
    declared with size 1, its body is one line with the token of the
    indeterminate byte [g], and the size constant is 1 (the claim says
    size 0 and an empty body). *)
Theorem parseAndDumpInput_empty_stream :
  forall qCompress (g : byte) (leftIndentation indentation width : Z)
         (prefix variableName variableType sizeVariableName sizeVariableType : string),
    parseAndDumpInput qCompress g [] leftIndentation indentation width
      prefix variableName variableType sizeVariableName sizeVariableType false
    = (true,
       leftIndentationString leftIndentation
       ++ variableType ++ " " ++ prefix ++ variableName ++ "[1] = {"
       ++ (endl ++ contentsIndentationString leftIndentation indentation
           ++ sprintf_0x02X g)
       ++ endl
       ++ leftIndentationString leftIndentation ++ "};" ++ endl
       ++ endl
       ++ leftIndentationString leftIndentation
       ++ sizeVariableType ++ " " ++ prefix ++ sizeVariableName ++ " = 1;" ++ endl
       ++ endl).
Proof.
  intros. unfold parseAndDumpInput.
  change (QByteArray (readInput g [])
            (to_int (Z.of_nat (List.length (readInput g [])))))
    with [g].
  unfold dumpOutput, arrayBody.
  cbn [readInput compress List.length dumpValues].
  rewrite Z.leb_refl.
  change (decimal (Z.of_nat 1)) with "1".
  change (0 <? to_unsigned_long (Z.of_nat 1 - 1)) with false.
  rewrite !append_assoc. cbn [append]. reflexivity.
Qed.

(** ** The variable name prefix *)

Lemma rfind_lt c s position :
  rfind c s = Some position -> (position < String.length s)%nat.
Proof.
  revert position. induction s as [|a s IH]; intros position H; cbn in *.
  - discriminate.
  - destruct (rfind c s) as [q|].
    + injection H as <-. specialize (IH q eq_refl). lia.
    + destruct (Ascii.eqb a c); [injection H as <-; lia | discriminate].
Qed.

Lemma rfind_absent c s :
  ~ In c (list_ascii_of_string s) -> rfind c s = None.
Proof.
  induction s as [|a s IH]; intros H; cbn in *; [reflexivity|].
  rewrite IH by tauto.
  destruct (Ascii.eqb_spec a c); [tauto | reflexivity].
Qed.

Lemma rfind_app c a b :
  rfind c (a ++ b)
  = match rfind c b with
    | Some position => Some (String.length a + position)%nat
    | None => rfind c a
    end.
Proof.
  induction a as [|x a IH]; cbn.
  - now destruct (rfind c b).
  - rewrite IH. now destruct (rfind c b).
Qed.

Lemma substr_app a x b : substr (String.length a + 1) (a ++ String x b) = b.
Proof. induction a as [|y a IH]; cbn; [reflexivity | exact IH]. Qed.

(** With the last separator at the end of [directory], the basename is
    what [substr] keeps. *)
Lemma resolvePrefix_after_separator directory separator basename :
  separator = "/"%char \/ separator = backslash ->
  ~ In "/"%char (list_ascii_of_string basename) ->
  ~ In backslash (list_ascii_of_string basename) ->
  resolvePrefix (directory ++ String separator basename)
  = replace "." "_" basename.
Proof.
  intros Hsep Hforward Hbackward. unfold resolvePrefix.
  rewrite !rfind_app. cbn [rfind].
  rewrite (rfind_absent "/" basename Hforward).
  rewrite (rfind_absent backslash basename Hbackward).
  destruct Hsep as [-> | ->].
  - change (Ascii.eqb "/" "/") with true.
    change (Ascii.eqb "/" backslash) with false.
    cbv iota. rewrite Nat.add_0_r.
    destruct (rfind backslash directory) as [q|] eqn:E.
    + apply rfind_lt in E. rewrite Nat.max_l by lia. now rewrite substr_app.
    + now rewrite substr_app.
  - change (Ascii.eqb backslash backslash) with true.
    change (Ascii.eqb backslash "/") with false.
    cbv iota. rewrite Nat.add_0_r.
    destruct (rfind "/" directory) as [q|] eqn:E.
    + apply rfind_lt in E. rewrite Nat.max_r by lia. now rewrite substr_app.
    + now rewrite substr_app.
Qed.

Lemma replace_get old new s i :
  String.get i (replace old new s)
  = option_map (fun c => if Ascii.eqb c old then new else c) (String.get i s).
Proof.
  revert i. induction s as [|c s IH]; intros i; cbn; [reflexivity|].
  destruct i as [|i]; [reflexivity | apply IH].
Qed.

(** C6.  [resolvePrefix] drops everything up to and including the last
    [/] or [\], whichever comes later, and replaces every [.] of the
    remaining basename by [_]; a path without separator is kept whole.
    In particular ["a/b/c.bin"] and ["a\b\c.bin"] give ["c_bin"],
    ["x.y.bin"] gives ["x_y_bin"] and ["nameonly"] is unchanged. *)
Theorem resolvePrefix_spec :
  (forall directory separator basename,
      separator = "/"%char \/ separator = backslash ->
      ~ In "/"%char (list_ascii_of_string basename) ->
      ~ In backslash (list_ascii_of_string basename) ->
      resolvePrefix (directory ++ String separator basename)
      = replace "." "_" basename)
  /\ (forall path,
      ~ In "/"%char (list_ascii_of_string path) ->
      ~ In backslash (list_ascii_of_string path) ->
      resolvePrefix path = replace "." "_" path)
  /\ (forall s i,
      String.get i (replace "." "_" s)
      = option_map (fun c => if Ascii.eqb c "." then "_"%char else c)
          (String.get i s))
  /\ resolvePrefix "a/b/c.bin" = "c_bin"
  /\ resolvePrefix "a\b\c.bin" = "c_bin"
  /\ resolvePrefix "x.y.bin" = "x_y_bin"
  /\ resolvePrefix "nameonly" = "nameonly".
Proof.
  split; [exact resolvePrefix_after_separator|].
  split.
  { intros path Hforward Hbackward. unfold resolvePrefix.
    now rewrite (rfind_absent "/" path Hforward),
                (rfind_absent backslash path Hbackward). }
  split; [intros s i; apply replace_get|].
  repeat split; reflexivity.
Qed.

Lemma resolvePrefix_spec_witness :
  resolvePrefix ("dir\sub/" ++ String "/" "c.tar.gz") = "c_tar_gz"
  /\ resolvePrefix "payload.bin" = "payload_bin".
Proof.
  destruct resolvePrefix_spec as (Hsplit & Hwhole & _).
  split.
  - rewrite (Hsplit "dir\sub/" "/"%char "c.tar.gz").
    + reflexivity.
    + left; reflexivity.
    + cbn. intros H. repeat (destruct H as [H | H]; [discriminate H|]). exact H.
    + cbn. intros H. repeat (destruct H as [H | H]; [discriminate H|]). exact H.
  - rewrite (Hwhole "payload.bin").
    + reflexivity.
    + cbn. intros H. repeat (destruct H as [H | H]; [discriminate H|]). exact H.
    + cbn. intros H. repeat (destruct H as [H | H]; [discriminate H|]). exact H.
Defined.

(** ** Several inputs, one of which cannot be opened *)

(** An input that is not the output file is read as the files have it. *)
Lemma openInput_other world outputStream written name :
  isOutputFile world outputStream name = false ->
  openInput world outputStream written name = inputFile world name.
Proof. intros H. unfold openInput. now rewrite H. Qed.

Section FirstFailure.

Variable qCompress : list byte -> Z -> list byte.
Variable indeterminate : nat -> byte.
Variable world : World.
Variable outputStream : option string.
Variables leftIndentation indentation width : Z.
Variables variableName variableType sizeVariableName sizeVariableType : string.
Variable zlibCompress : bool.

Lemma blockOf_readable call name contents :
  inputFile world name = Some contents ->
  blockOf qCompress indeterminate world leftIndentation indentation width
    variableName variableType sizeVariableName sizeVariableType zlibCompress
    call name
  = contentsComment name
    ++ snd (parseAndDumpInput qCompress (indeterminate call) contents
              leftIndentation indentation width (resolvePrefix name)
              variableName variableType sizeVariableName sizeVariableType
              zlibCompress).
Proof. intros E. unfold blockOf, contentsOf. now rewrite E. Qed.

(** When the inputs [done] can be opened and [failing] cannot (none of
    them being the output file), the loop writes the blocks of [done],
    nothing for [failing] or the inputs [rest] behind it, and returns
    false; its diagnostic names [inputs.at(0)], the first of all
    inputs. *)
Lemma dumpInputs_first_failure inputs done failing rest :
  forall written call,
  Forall (fun name => isOutputFile world outputStream name = false
                      /\ inputFile world name <> None) done ->
  isOutputFile world outputStream failing = false ->
  inputFile world failing = None ->
  dumpInputs qCompress indeterminate world inputs (done ++ failing :: rest)
    outputStream written call
    leftIndentation indentation width variableName variableType
    sizeVariableName sizeVariableType zlibCompress
  = {| succeeded := false;
       toOutput :=
         blocksOf qCompress indeterminate world leftIndentation
           indentation width variableName variableType
           sizeVariableName sizeVariableType zlibCompress call done;
       toError := "*** Could not open input file " ++ hd "" inputs ++ endl |}.
Proof.
  induction done as [|name done IH]; intros written call Hdone Hother Hfailing;
    cbn [app dumpInputs].
  - now rewrite openInput_other, Hfailing.
  - inversion Hdone as [|? ? [Hname Hreadable] Hothers]; subst.
    rewrite openInput_other by assumption.
    cbn [blocksOf].
    destruct (inputFile world name) as [contents|] eqn:E; [|congruence].
    rewrite (blockOf_readable call name contents E).
    cbn [parseAndDumpInput snd].
    rewrite (IH _ _ Hothers Hother Hfailing).
    cbn [succeeded toOutput toError].
    now rewrite append_assoc.
Qed.

End FirstFailure.

(** With two inputs or more, of which the first that cannot be opened
    is [failing] (the output file not being one of them): the run returns
    false, the output holds the banner, the opening of the namespace and
    the blocks of the inputs before [failing], and the diagnostic names
    [inputs.at(0)]. *)
Lemma buildPayloadHelper_first_failure
    qCompress (g : nat -> byte) (world : World) (done : list string)
    (failing : string) (rest : list string) (outputStream : option string)
    (description copyrightMessage : string) (noCopyrightMessage : bool)
    (indentation width : Z)
    (namespaceName variableName variableType : string)
    (sizeVariableName sizeVariableType : string) (zlibCompress : bool)
    (bannerText : string) :
  let inputs := (done ++ failing :: rest)%list in
  (2 <= List.length inputs)%nat ->
  Forall (fun name => isOutputFile world outputStream name = false
                      /\ inputFile world name <> None) done ->
  isOutputFile world outputStream failing = false ->
  inputFile world failing = None ->
  banner description copyrightMessage noCopyrightMessage width = Some bannerText ->
  buildPayloadHelper qCompress g world inputs outputStream description
    copyrightMessage noCopyrightMessage indentation width namespaceName
    variableName variableType sizeVariableName sizeVariableType zlibCompress
  = Some {| succeeded := false;
            toOutput :=
              bannerText ++ namespaceOpening namespaceName
              ++ blocksOf qCompress g world
                   (if isEmpty namespaceName then 0 else indentation)
                   indentation width variableName variableType
                   sizeVariableName sizeVariableType zlibCompress 0 done;
            toError := "*** Could not open input file " ++ hd "" inputs ++ endl |}.
Proof.
  intros inputs Hlength Hdone Hother Hfailing Hbanner.
  unfold buildPayloadHelper. rewrite Hbanner.
  assert (Hloop : forall written,
    dumpPayloads qCompress g world inputs outputStream written
      (if isEmpty namespaceName then 0 else indentation) indentation width
      variableName variableType sizeVariableName sizeVariableType zlibCompress
    = dumpInputs qCompress g world inputs inputs outputStream written 0
        (if isEmpty namespaceName then 0 else indentation) indentation width
        variableName variableType sizeVariableName sizeVariableType zlibCompress).
  { intros written. unfold dumpPayloads.
    destruct inputs as [|first [|second others]];
      cbn [List.length] in Hlength; try lia. reflexivity. }
  rewrite Hloop.
  change (dumpInputs qCompress g world inputs inputs)
    with (dumpInputs qCompress g world inputs (done ++ failing :: rest)%list).
  now rewrite dumpInputs_first_failure.
Qed.

(** C7.  What the code does when the second of three inputs cannot be
    opened: the block of [a.bin] stays in the output, [c.bin] is not
    processed and the run fails, but the diagnostic names [a.bin], the
    first input, where the claim says it names the failing path
    [b.bin]. *)
Theorem buildPayloadHelper_second_input_missing :
  forall qCompress (g : nat -> byte),
    buildPayloadHelper qCompress g exampleWorld ["a.bin"; "b.bin"; "c.bin"]
      None "" "" true 4 120 "" "declarations" "static const unsigned char"
      "declarationsSize" "static const unsigned long" false
    = Some {| succeeded := false;
              toOutput :=
                "// Contents of a.bin:" ++ endl
                ++ "static const unsigned char a_bindeclarations[3] = {" ++ endl
                ++ "    0x01, 0x02, " ++ sprintf_0x02X (g 0%nat) ++ endl
                ++ "};" ++ endl
                ++ endl
                ++ "static const unsigned long a_bindeclarationsSize = 3;" ++ endl
                ++ endl;
              toError := "*** Could not open input file a.bin" ++ endl |}.
Proof. intros. reflexivity. Qed.

(** ** Lines of the payload blocks *)

Lemma newlineFree_app a b :
  newlineFree (a ++ b) = newlineFree a && newlineFree b.
Proof.
  induction a as [|c a IH]; cbn; [reflexivity|].
  rewrite IH. now rewrite andb_assoc.
Qed.

Lemma newlineFree_spaces k : newlineFree (spaces k) = true.
Proof. induction k as [|k IH]; [reflexivity | exact IH]. Qed.

Lemma newlineFree_value v : newlineFree (sprintf_0x02X v) = true.
Proof. destruct v; reflexivity. Qed.

Lemma newlineFree_decimal n : newlineFree (decimal n) = true.
Proof.
  unfold decimal.
  assert (H : forall d, newlineFree (NilEmpty.string_of_uint d) = true)
    by (induction d; cbn; auto).
  destruct (N.to_uint (Z.to_N n)); try apply H; reflexivity.
Qed.

Lemma newlineFree_substr pos s :
  newlineFree s = true -> newlineFree (substr pos s) = true.
Proof.
  revert s. induction pos as [|pos IH]; intros s H; [exact H|].
  destruct s as [|c s]; [reflexivity|].
  cbn in *. apply andb_true_iff in H. apply IH, H.
Qed.

Lemma newlineFree_replace s :
  newlineFree s = true -> newlineFree (replace "." "_" s) = true.
Proof.
  induction s as [|c s IH]; intros H; [reflexivity|].
  cbn in *. apply andb_true_iff in H. destruct H as [Hc Hs].
  rewrite (IH Hs), andb_true_r.
  destruct (Ascii.eqb c "."); [reflexivity | exact Hc].
Qed.

Lemma newlineFree_resolvePrefix name :
  newlineFree name = true -> newlineFree (resolvePrefix name) = true.
Proof.
  intros H. unfold resolvePrefix. apply newlineFree_replace.
  destruct (rfind "/" name), (rfind backslash name);
    try apply newlineFree_substr; exact H.
Qed.

(** A complete line in front of a text is its first line. *)
Lemma getlines_line a rest :
  newlineFree a = true -> getlines (a ++ endl ++ rest) = a :: getlines rest.
Proof.
  induction a as [|c a IH]; intros H; [reflexivity|].
  cbn in H. apply andb_true_iff in H. destruct H as [Hc Ha].
  cbn [append getlines]. rewrite (IH Ha).
  apply negb_true_iff in Hc. now rewrite Hc.
Qed.

Lemma isEmpty_app a b : isEmpty (a ++ b) = isEmpty a && isEmpty b.
Proof. now destruct a. Qed.

Lemma spaces_add j k : spaces (j + k) = spaces j ++ spaces k.
Proof. induction j as [|j IH]; cbn; [reflexivity | now rewrite IH]. Qed.

Lemma getlines_nonempty a : getlines (a ++ endl) <> [].
Proof.
  induction a as [|c a IH]; cbn; [discriminate|].
  destruct (isNewline c); [discriminate|].
  destruct (getlines (a ++ endl)); [congruence | discriminate].
Qed.

(** The lines of a text that ends with a line feed are the first lines
    of whatever text follows it. *)
Lemma getlines_terminated a b :
  getlines ((a ++ endl) ++ b) = (getlines (a ++ endl) ++ getlines b)%list.
Proof.
  induction a as [|c a IH]; [reflexivity|].
  cbn [append getlines]. rewrite IH.
  destruct (isNewline c); [reflexivity|].
  pose proof (getlines_nonempty a) as Hne.
  destruct (getlines (a ++ endl)); [congruence | reflexivity].
Qed.

Section InNamespace.

(** The loop with [columns] more blanks of indentation, behind the same
    line moved right by [columns]: line by line it writes what the loop
    writes without them, moved right by [columns]. *)
Lemma dumpValues_shifted columns k perLine n rest :
  forall i valuesThisLine current tail tail0,
    newlineFree current = true ->
    isEmpty current = false ->
    getlines tail = map (shiftedBy columns) (getlines tail0) ->
    getlines ((spaces columns ++ current)
              ++ dumpValues (spaces (columns + k)) perLine n i valuesThisLine rest
              ++ endl ++ tail)
    = map (shiftedBy columns)
        (getlines (current
                   ++ dumpValues (spaces k) perLine n i valuesThisLine rest
                   ++ endl ++ tail0)).
Proof.
  induction rest as [|v rest IH];
    intros i vtl current tail tail0 Hfree Hfull Htail.
  - cbn [dumpValues append].
    rewrite !getlines_line
      by (rewrite ?newlineFree_app, ?newlineFree_spaces; assumption).
    cbn [map].
    change (shiftedBy columns current)
      with (if isEmpty current then "" else spaces columns ++ current).
    now rewrite Hfull, Htail.
  - cbn [dumpValues].
    set (separator := if i <? to_unsigned_long (n - 1) then ", " else "").
    assert (Hsep : newlineFree separator = true)
      by (subst separator; destruct (i <? _); reflexivity).
    destruct (perLine <=? vtl).
    + replace ((spaces columns ++ current)
               ++ ((endl ++ spaces (columns + k)) ++ sprintf_0x02X v ++ separator
                   ++ dumpValues (spaces (columns + k)) perLine n
                        (to_unsigned_long (i + 1)) 1 rest)
               ++ endl ++ tail)
        with ((spaces columns ++ current) ++ endl
              ++ (spaces columns ++ spaces k ++ sprintf_0x02X v ++ separator)
              ++ dumpValues (spaces (columns + k)) perLine n
                   (to_unsigned_long (i + 1)) 1 rest
              ++ endl ++ tail)
        by (rewrite spaces_add; now rewrite !append_assoc).
      replace (current
               ++ ((endl ++ spaces k) ++ sprintf_0x02X v ++ separator
                   ++ dumpValues (spaces k) perLine n
                        (to_unsigned_long (i + 1)) 1 rest)
               ++ endl ++ tail0)
        with (current ++ endl
              ++ (spaces k ++ sprintf_0x02X v ++ separator)
              ++ dumpValues (spaces k) perLine n
                   (to_unsigned_long (i + 1)) 1 rest
              ++ endl ++ tail0)
        by (now rewrite !append_assoc).
      rewrite !getlines_line
        by (rewrite ?newlineFree_app, ?newlineFree_spaces; assumption).
      cbn [map].
      change (shiftedBy columns current)
        with (if isEmpty current then "" else spaces columns ++ current).
      rewrite Hfull. f_equal.
      apply IH; try assumption.
      * now rewrite !newlineFree_app, newlineFree_spaces, newlineFree_value, Hsep.
      * rewrite !isEmpty_app. destruct v; cbn; apply andb_false_r.
    + replace ((spaces columns ++ current)
               ++ ("" ++ sprintf_0x02X v ++ separator
                   ++ dumpValues (spaces (columns + k)) perLine n
                        (to_unsigned_long (i + 1)) (to_unsigned (vtl + 1)) rest)
               ++ endl ++ tail)
        with ((spaces columns ++ current ++ sprintf_0x02X v ++ separator)
              ++ dumpValues (spaces (columns + k)) perLine n
                   (to_unsigned_long (i + 1)) (to_unsigned (vtl + 1)) rest
              ++ endl ++ tail)
        by (cbn [append]; now rewrite !append_assoc).
      replace (current
               ++ ("" ++ sprintf_0x02X v ++ separator
                   ++ dumpValues (spaces k) perLine n
                        (to_unsigned_long (i + 1)) (to_unsigned (vtl + 1)) rest)
               ++ endl ++ tail0)
        with ((current ++ sprintf_0x02X v ++ separator)
              ++ dumpValues (spaces k) perLine n
                   (to_unsigned_long (i + 1)) (to_unsigned (vtl + 1)) rest
              ++ endl ++ tail0)
        by (cbn [append]; now rewrite !append_assoc).
      apply IH; try assumption.
      * now rewrite !newlineFree_app, Hfree, newlineFree_value, Hsep.
      * rewrite isEmpty_app, Hfull. reflexivity.
Qed.

Variables indentation width : Z.
Variables variableName variableType sizeVariableName sizeVariableType : string.

Hypothesis indentation_fits : 0 <= indentation /\ 2 * indentation <= UINT_MAX.
Hypothesis variableName_line : newlineFree variableName = true.
Hypothesis variableType_line : newlineFree variableType = true.
Hypothesis sizeVariableName_line : newlineFree sizeVariableName = true.
Hypothesis sizeVariableType_line : newlineFree sizeVariableType = true.

(** A block inside a namespace ([leftIndentation = indentation]) is, line
    by line, the block outside a namespace at the width
    [width - indentation], every line that is not blank moved right by
    [indentation]. *)
Lemma dumpOutput_in_namespace outputData prefix :
  newlineFree prefix = true ->
  getlines (dumpOutput outputData indentation indentation width prefix
              variableName variableType sizeVariableName sizeVariableType)
  = map (shifted indentation)
      (getlines (dumpOutput outputData 0 indentation (width - indentation)
                   prefix variableName variableType sizeVariableName
                   sizeVariableType)).
Proof.
  intros Hprefix. unfold shifted.
  set (columns := Z.to_nat indentation).
  set (size := decimal (Z.of_nat (List.length outputData))).
  set (header := variableType ++ " " ++ prefix ++ variableName
                 ++ "[" ++ size ++ "] = {").
  set (sizeLine := sizeVariableType ++ " " ++ prefix ++ sizeVariableName
                   ++ " = " ++ size ++ ";").
  assert (Hsize : newlineFree size = true) by apply newlineFree_decimal.
  assert (Hheader : newlineFree header = true)
    by (unfold header;
        now rewrite !newlineFree_app, variableType_line, Hprefix,
          variableName_line, Hsize).
  assert (HsizeLine : newlineFree sizeLine = true)
    by (unfold sizeLine;
        now rewrite !newlineFree_app, sizeVariableType_line, Hprefix,
          sizeVariableName_line, Hsize).
  assert (Hper : valuesPerLine indentation indentation width
                 = valuesPerLine 0 indentation (width - indentation))
    by (unfold valuesPerLine; do 2 f_equal; lia).
  assert (Hcontents : contentsIndentationString indentation indentation
                      = spaces (columns + columns)).
  { unfold contentsIndentationString. rewrite to_unsigned_small by bounds.
    f_equal. subst columns. lia. }
  assert (Hcontents0 : contentsIndentationString 0 indentation = spaces columns).
  { unfold contentsIndentationString. rewrite to_unsigned_small by bounds.
    f_equal. }
  replace (dumpOutput outputData indentation indentation width prefix
             variableName variableType sizeVariableName sizeVariableType)
    with ((spaces columns ++ header)
          ++ arrayBody indentation indentation width outputData
          ++ endl ++ (spaces columns ++ "};") ++ endl ++ "" ++ endl
          ++ (spaces columns ++ sizeLine) ++ endl ++ "" ++ endl ++ "")
    by (unfold dumpOutput, leftIndentationString, header, sizeLine, size, columns;
        cbv zeta; rewrite !append_assoc, !append_nil_r; reflexivity).
  replace (dumpOutput outputData 0 indentation (width - indentation) prefix
             variableName variableType sizeVariableName sizeVariableType)
    with (header
          ++ arrayBody 0 indentation (width - indentation) outputData
          ++ endl ++ "};" ++ endl ++ "" ++ endl
          ++ sizeLine ++ endl ++ "" ++ endl ++ "")
    by (unfold dumpOutput, leftIndentationString, header, sizeLine, size;
        cbv zeta; cbn [Z.to_nat spaces]; rewrite !append_assoc, !append_nil_r;
        reflexivity).
  unfold arrayBody. rewrite Hper, Hcontents, Hcontents0.
  apply dumpValues_shifted.
  - exact Hheader.
  - unfold header. rewrite isEmpty_app. apply andb_false_r.
  - rewrite !getlines_line
      by (rewrite ?newlineFree_app, ?newlineFree_spaces; assumption || reflexivity).
    cbn [getlines map]. unfold shiftedBy. cbn [isEmpty].
    replace (isEmpty sizeLine) with false
      by (unfold sizeLine; rewrite isEmpty_app; symmetry; apply andb_false_r).
    reflexivity.
Qed.

Lemma dumpOutput_terminated outputData leftIndentation prefix :
  exists text,
    dumpOutput outputData leftIndentation indentation width prefix
      variableName variableType sizeVariableName sizeVariableType
    = text ++ endl.
Proof.
  unfold dumpOutput. cbv zeta. eexists.
  rewrite <- !append_assoc. reflexivity.
Qed.

Lemma pieceText_lines piece :
  isLead (fst (fst piece)) -> newlineFree (snd piece) = true ->
  exists text,
    pieceText indentation indentation width variableName variableType
      sizeVariableName sizeVariableType piece = text ++ endl
    /\ getlines (text ++ endl)
       = pieceLinesInNamespace indentation width variableName variableType
           sizeVariableName sizeVariableType piece.
Proof.
  destruct piece as [[lead outputData] prefix]. cbn [fst snd].
  intros Hlead Hprefix. unfold pieceText, pieceLinesInNamespace. cbn [fst snd].
  destruct (dumpOutput_terminated outputData indentation prefix) as [text Htext].
  exists (lead ++ text). rewrite Htext. split; [now rewrite append_assoc|].
  rewrite <- (dumpOutput_in_namespace outputData prefix Hprefix), Htext.
  destruct Hlead as [-> | (margin & name & Hname & ->)]; [reflexivity|].
  assert (Hline : spaces margin ++ "// Contents of " ++ name ++ ":" ++ endl
                  = (spaces margin ++ "// Contents of " ++ name ++ ":") ++ endl)
    by (now rewrite !append_assoc).
  rewrite Hline.
  rewrite (append_assoc
             ((spaces margin ++ "// Contents of " ++ name ++ ":") ++ endl)
             text endl).
  apply getlines_terminated.
Qed.

(** The lines of pieces written one after the other. *)
Lemma pieces_lines pieces :
  Forall (fun piece : Piece =>
            isLead (fst (fst piece)) /\ newlineFree (snd piece) = true) pieces ->
  getlines (joined (map (pieceText indentation indentation width variableName
                           variableType sizeVariableName sizeVariableType)
                      pieces))
  = flat_map (pieceLinesInNamespace indentation width variableName
                variableType sizeVariableName sizeVariableType) pieces.
Proof.
  induction pieces as [|piece pieces IH]; intros H; [reflexivity|].
  inversion H as [|? ? [Hlead Hprefix] Hothers]; subst.
  cbn [map joined fold_right flat_map].
  destruct (pieceText_lines piece Hlead Hprefix) as (text & -> & <-).
  rewrite getlines_terminated. f_equal. now apply IH.
Qed.

End InNamespace.


Section Pieces.

Variable qCompress : list byte -> Z -> list byte.
Variable indeterminate : nat -> byte.
Variable world : World.
Variable outputStream : option string.
Variables leftIndentation indentation width : Z.
Variables variableName variableType sizeVariableName sizeVariableType : string.
Variable zlibCompress : bool.

Lemma contentsComment_lead name :
  newlineFree name = true -> isLead (contentsComment name).
Proof.
  intros H. right. exists O, name. split; [exact H | reflexivity].
Qed.

(** The loop over several inputs writes pieces: every block behind its
    [// Contents of] line. *)
Lemma dumpInputs_pieces inputs remaining :
  forall written call,
    Forall (fun name => newlineFree name = true) remaining ->
    exists pieces : list Piece,
      toOutput (dumpInputs qCompress indeterminate world inputs remaining
                  outputStream written call leftIndentation indentation width
                  variableName variableType sizeVariableName sizeVariableType
                  zlibCompress)
      = joined (map (pieceText leftIndentation indentation width variableName
                       variableType sizeVariableName sizeVariableType) pieces)
      /\ Forall (fun piece : Piece =>
                   isLead (fst (fst piece)) /\ newlineFree (snd piece) = true)
           pieces.
Proof.
  induction remaining as [|name remaining IH]; intros written call Hnames;
    cbn [dumpInputs].
  - exists []. split; [reflexivity | constructor].
  - inversion Hnames as [|? ? Hname Hothers]; subst.
    destruct (openInput world outputStream (written ++ contentsComment name) name)
      as [contents|].
    + cbn [parseAndDumpInput].
      match goal with
      | |- context [dumpInputs _ _ _ _ _ _ ?w ?c] =>
          destruct (IH w c Hothers) as (pieces & Htext & Hpieces)
      end.
      cbn [toOutput]. rewrite Htext.
      exists ((contentsComment name,
               compress qCompress
                 (QByteArray (readInput (indeterminate call) contents)
                    (to_int (Z.of_nat (List.length
                       (readInput (indeterminate call) contents)))))
                 zlibCompress,
               resolvePrefix name) :: pieces).
      split.
      * cbn [map joined fold_right]. unfold pieceText at 2. cbn [fst snd].
        now rewrite append_assoc.
      * constructor; [|exact Hpieces]. cbn [fst snd].
        split; [now apply contentsComment_lead
               | now apply newlineFree_resolvePrefix].
    + exists []. split; [reflexivity | constructor].
Qed.

Lemma dumpPayloads_pieces inputs written :
  Forall (fun name => newlineFree name = true) inputs ->
  exists pieces : list Piece,
    toOutput (dumpPayloads qCompress indeterminate world inputs outputStream
                written leftIndentation indentation width variableName
                variableType sizeVariableName sizeVariableType zlibCompress)
    = joined (map (pieceText leftIndentation indentation width variableName
                     variableType sizeVariableName sizeVariableType) pieces)
    /\ Forall (fun piece : Piece =>
                 isLead (fst (fst piece)) /\ newlineFree (snd piece) = true)
         pieces.
Proof.
  intros Hnames. unfold dumpPayloads.
  destruct inputs as [|name [|other inputs]].
  - cbn [parseAndDumpInput toOutput].
    eexists [("", _, "")]. split.
    + cbn [map joined fold_right]. unfold pieceText. cbn [fst snd append].
      now rewrite append_nil_r.
    + constructor; [|constructor]. split; [left|]; reflexivity.
  - destruct (openInput world outputStream written name) as [contents|];
      cbn [parseAndDumpInput toOutput].
    + eexists [("", _, "")]. split.
      * cbn [map joined fold_right]. unfold pieceText. cbn [fst snd append].
        now rewrite append_nil_r.
      * constructor; [|constructor]. split; [left|]; reflexivity.
    + exists []. split; [reflexivity | constructor].
  - now apply dumpInputs_pieces.
Qed.

End Pieces.





(** ** Where a failing run comes from *)

Section Failures.

Variable qCompress : list byte -> Z -> list byte.
Variable indeterminate : nat -> byte.
Variable strtoul : string -> Z.
Variable world : World.

Lemma parseAndDumpInput_succeeds (readData : byte) inputStream
    leftIndentation indentation width
    prefix variableName variableType sizeVariableName sizeVariableType
    zlibCompress :
  fst (parseAndDumpInput qCompress readData inputStream leftIndentation
         indentation width prefix variableName variableType sizeVariableName
         sizeVariableType zlibCompress) = true.
Proof. reflexivity. Qed.

(** An input that cannot be opened is not among the files. *)
Lemma openInput_none outputStream written name :
  openInput world outputStream written name = None ->
  inputFile world name = None.
Proof.
  unfold openInput.
  destruct (isOutputFile world outputStream name);
    [discriminate | exact (fun H => H)].
Qed.

(** The loop over several inputs fails only on an input it cannot open. *)
Lemma dumpInputs_failure inputs remaining outputStream
    leftIndentation indentation width
    variableName variableType sizeVariableName sizeVariableType zlibCompress :
  forall written call,
  let result :=
    dumpInputs qCompress indeterminate world inputs remaining outputStream
      written call leftIndentation
      indentation width variableName variableType sizeVariableName
      sizeVariableType zlibCompress in
  succeeded result = false ->
  exists name,
    In name remaining /\ inputFile world name = None
    /\ toError result = "*** Could not open input file " ++ hd "" inputs ++ endl.
Proof.
  induction remaining as [|name remaining IH]; intros written call;
    cbn [dumpInputs]; intros Hfail.
  - discriminate.
  - destruct (openInput world outputStream (written ++ contentsComment name) name)
      as [contents|] eqn:E.
    + cbn [parseAndDumpInput succeeded toError] in *.
      destruct (IH _ _ Hfail) as (other & Hin & Hnone & Herr).
      exists other. split; [right; exact Hin | split; assumption].
    + exists name. split; [left; reflexivity|].
      split; [now apply openInput_none in E | reflexivity].
Qed.

Lemma dumpPayloads_failure inputs outputStream written
    leftIndentation indentation width
    variableName variableType sizeVariableName sizeVariableType zlibCompress :
  let result :=
    dumpPayloads qCompress indeterminate world inputs outputStream written
      leftIndentation
      indentation width variableName variableType sizeVariableName
      sizeVariableType zlibCompress in
  succeeded result = false ->
  exists name,
    In name inputs /\ inputFile world name = None
    /\ toError result = "*** Could not open input file " ++ hd "" inputs ++ endl.
Proof.
  unfold dumpPayloads. destruct inputs as [|name [|other inputs]].
  - cbn. discriminate.
  - destruct (openInput world outputStream written name) as [contents|] eqn:E;
      cbn.
    + discriminate.
    + intros _. exists name. split; [left; reflexivity|].
      split; [now apply openInput_none in E | reflexivity].
  - apply dumpInputs_failure.
Qed.

Lemma to_unsigned_nonnegative z : 0 <= to_unsigned z.
Proof. unfold to_unsigned. apply Z.mod_pos_bound. lia. Qed.

(** One round of the argument loop keeps the invariant. *)
Lemma handleArgument_invariant argument next l :
  success l = true -> errors l = "" -> 0 < indentation l ->
  helpRequested l = false ->
  argumentsInvariant strtoul (fst (handleArgument strtoul argument next l)).
Proof.
  intros Hsuccess Herrors Hindentation Hhelp.
  unfold handleArgument, argumentsInvariant.
  repeat match goal with
         | |- context [if isSwitch ?a ?b ?c then _ else _] =>
             destruct (isSwitch a b c)
         end;
    unfold withParameter;
    try (destruct next as [value|]);
    cbn [fst];
    try (left; cbn; repeat split; assumption);
    try (right; cbn; rewrite Herrors; repeat split; try assumption;
         left; eexists; reflexivity).
  - cbn [set_indentation indentation].
    pose proof (to_unsigned_nonnegative (strtoul value)) as Hnonnegative.
    destruct (Z.leb_spec (to_unsigned (strtoul value)) 0) as [Hzero | Hpositive].
    + right. cbn. rewrite Herrors. repeat split; try assumption.
      right. exists value. split; [lia | reflexivity].
    + left. cbn. repeat split; assumption.
  - cbn [set_width indentation].
    destruct (Z.leb_spec (indentation l) 0) as [Hzero | Hpositive]; [lia|].
    left. cbn. repeat split; assumption.
Qed.

Lemma parseArguments_invariant_bounded n : forall arguments l,
  (List.length arguments <= n)%nat ->
  argumentsInvariant strtoul l ->
  argumentsInvariant strtoul (parseArguments strtoul arguments l).
Proof.
  induction n as [|n IH]; intros arguments l Hlength Hl.
  - destruct arguments; [|cbn in Hlength; lia].
    cbn. now destruct (success l && negb (helpRequested l)).
  - destruct arguments as [|argument rest]; cbn [parseArguments].
    + now destruct (success l && negb (helpRequested l)).
    + destruct (success l && negb (helpRequested l)) eqn:Hrunning; [|exact Hl].
      apply andb_true_iff in Hrunning. destruct Hrunning as [Hsuccess Hhelp].
      apply negb_true_iff in Hhelp.
      destruct Hl as [(_ & Herrors & Hindentation) | (Hfailed & _)];
        [|congruence].
      pose proof (handleArgument_invariant argument (hd_error rest) l
                    Hsuccess Herrors Hindentation Hhelp) as Hround.
      destruct (handleArgument strtoul argument (hd_error rest) l) as [l' taken].
      cbn [fst] in Hround. cbn [List.length] in Hlength.
      destruct rest as [|parameter rest]; [apply IH; [cbn; lia | exact Hround]|].
      destruct taken; apply IH; cbn [List.length] in *; try lia; exact Hround.
Qed.

Lemma parseArguments_invariant arguments :
  argumentsInvariant strtoul (parseArguments strtoul arguments initialLocals).
Proof.
  apply parseArguments_invariant_bounded with (n := List.length arguments).
  - apply Nat.le_refl.
  - left. cbn. repeat split.
Qed.

End Failures.

(** C10.  [parseAndDumpInput] returns true for every input stream and
    every configuration.  Hence a run of [main] that ends with a non-zero
    exit status has stopped on a command-line option (a switch without
    its parameter, or an indentation of 0), on an output file it could
    not open, or on an input file it could not open, and has written the
    matching diagnostic; formatting and compression never fail. *)
Theorem failure_origins :
  (forall qCompress (g : byte) (inputStream : list byte)
          (leftIndentation indentation width : Z)
          (prefix variableName variableType : string)
          (sizeVariableName sizeVariableType : string) (zlibCompress : bool),
      fst (parseAndDumpInput qCompress g inputStream leftIndentation
             indentation width prefix variableName variableType
             sizeVariableName sizeVariableType zlibCompress) = true)
  /\ (forall qCompress (g : nat -> byte) (strtoul : string -> Z) (world : World)
             (arguments : list string) (outcome : Outcome),
      main qCompress g strtoul world arguments = Some outcome ->
      exitStatus outcome <> 0 ->
      let l := parseArguments strtoul arguments initialLocals in
      (exists argument,
          standardError outcome
          = "*** The " ++ argument ++ " switch is missing a parameter." ++ endl)
      \/ (exists value,
          to_unsigned (strtoul value) = 0
          /\ standardError outcome
             = "*** Invalid indentation value " ++ value ++ endl)
      \/ (outputFilename l <> ""
          /\ outputFile world (outputFilename l) = false
          /\ standardError outcome
             = "*** Could not open output file " ++ outputFilename l ++ "." ++ endl)
      \/ (exists name,
          In name (inputs l)
          /\ inputFile world name = None
          /\ standardError outcome
             = "*** Could not open input file " ++ hd "" (inputs l) ++ endl)).
Proof.
  split; [intros; apply parseAndDumpInput_succeeds|].
  intros qCompress g strtoul world arguments outcome Hmain Hexit l.
  pose proof (parseArguments_invariant strtoul arguments) as Hl.
  fold l in Hl. unfold main in Hmain. fold l in Hmain.
  destruct Hl as [(Hsuccess & Herrors & _) | (Hfailed & Hhelp & Herror)].
  - rewrite Hsuccess, Herrors in Hmain.
    destruct (helpRequested l).
    { injection Hmain as <-. cbn in Hexit. congruence. }
    unfold buildPayload in Hmain.
    destruct (isEmpty (outputFilename l)) eqn:Hname.
    + destruct (buildPayloadHelper _ _ _ _ _ _ _ _ _ _ _ _ _ _ _ _)
        as [written|] eqn:Hhelper; [|discriminate].
      injection Hmain as <-. cbn in Hexit |- *.
      unfold buildPayloadHelper in Hhelper.
      destruct (banner _ _ _ _); [|discriminate].
      injection Hhelper as <-. cbn [succeeded toError] in *.
      right; right; right. apply dumpPayloads_failure.
      destruct (succeeded _); [congruence | reflexivity].
    + destruct (outputFile world (outputFilename l)) eqn:Hopen.
      * destruct (buildPayloadHelper _ _ _ _ _ _ _ _ _ _ _ _ _ _ _ _)
          as [written|] eqn:Hhelper; [|discriminate].
        injection Hmain as <-. cbn in Hexit |- *.
        unfold buildPayloadHelper in Hhelper.
        destruct (banner _ _ _ _); [|discriminate].
        injection Hhelper as <-. cbn [succeeded toError] in *.
        right; right; right. apply dumpPayloads_failure.
        destruct (succeeded _); [congruence | reflexivity].
      * injection Hmain as <-. cbn.
        right; right; left.
        split; [|split; reflexivity].
        intros Hnone. rewrite Hnone in Hname. discriminate.
  - rewrite Hfailed, Hhelp in Hmain. injection Hmain as <-. cbn.
    destruct Herror as [Hmissing | Hinvalid]; [left | right; left]; assumption.
Qed.

Lemma failure_origins_witness :
  exists outcome,
    main unusedCompressor zeroBytes (decimalValue 0) exampleWorld
      ["a.bin"; "--indentation"; "0"; "c.bin"] = Some outcome
    /\ exitStatus outcome <> 0
    /\ exists value,
         to_unsigned (decimalValue 0 value) = 0
         /\ standardError outcome
            = "*** Invalid indentation value " ++ value ++ endl.
Proof.
  eexists. split; [reflexivity|]. split; [discriminate|].
  destruct (proj2 failure_origins unusedCompressor zeroBytes (decimalValue 0)
              exampleWorld ["a.bin"; "--indentation"; "0"; "c.bin"] _ eq_refl)
    as [(argument & H) | [H | [(_ & _ & H) | (name & _ & _ & H)]]].
  - discriminate.
  - discriminate H.
  - exact H.
  - discriminate H.
  - discriminate H.
Defined.

(** * Further properties of the code *)

(** ** The read loop and the hexadecimal tokens *)

(** X1.  For every stream the read loop fills the buffer with the bytes of
    the stream, in order, followed by exactly one more byte (the value
    [readData] holds when the last read fails): the buffer is one byte
    longer than the stream and never empty. *)
Theorem readInput_one_byte_more :
  forall (g : byte) (inputStream : list byte),
    readInput g inputStream = (inputStream ++ [g])%list
    /\ List.length (readInput g inputStream) = S (List.length inputStream)
    /\ firstn (List.length inputStream) (readInput g inputStream) = inputStream
    /\ readInput g inputStream <> [].
Proof.
  intros g inputStream. rewrite readInput_app.
  split; [reflexivity|].
  split; [rewrite length_app; cbn; lia|].
  split.
  - rewrite firstn_app, Nat.sub_diag, firstn_all. cbn. apply app_nil_r.
  - destruct inputStream; discriminate.
Qed.

(** X2.  [sprintf] with ["0x%02X"] writes four characters for every byte,
    they read back as the value of the byte, and two different bytes
    never give the same token. *)
Theorem sprintf_0x02X_round_trip :
  forall v : byte,
    String.length (sprintf_0x02X v) = 4%nat
    /\ tokenValue (sprintf_0x02X v) = Some (Byte.to_N v)
    /\ forall w : byte, sprintf_0x02X v = sprintf_0x02X w -> v = w.
Proof.
  intros v. split; [reflexivity|]. split; [apply tokenValue_sprintf|].
  intros w H.
  assert (Hvalue : Some (Byte.to_N v) = Some (Byte.to_N w))
    by (rewrite <- !tokenValue_sprintf; now rewrite H).
  injection Hvalue as Hvalue.
  assert (Hbyte : Some v = Some w)
    by (rewrite <- (Byte.of_to_N v), <- (Byte.of_to_N w); now rewrite Hvalue).
  now injection Hbyte.
Qed.

(** ** The width of the array lines *)

Lemma length_append a b :
  String.length (a ++ b) = (String.length a + String.length b)%nat.
Proof. induction a as [|c a IH]; cbn; [reflexivity | now rewrite IH]. Qed.

Lemma length_spaces k : String.length (spaces k) = k.
Proof. induction k as [|k IH]; cbn; [reflexivity | now rewrite IH]. Qed.

Lemma visibleLength_le line : (visibleLength line <= String.length line)%nat.
Proof.
  induction line as [|c line IH]; cbn; [lia|].
  destruct (visibleLength line); [destruct (Ascii.eqb c " ")|]; lia.
Qed.

(** In front of a text that shows something, every character counts. *)
Lemma visibleLength_append a b :
  (0 < visibleLength b)%nat ->
  visibleLength (a ++ b) = (String.length a + visibleLength b)%nat.
Proof.
  intros Hb. induction a as [|c a IH]; cbn; [reflexivity|].
  rewrite IH. destruct (String.length a + visibleLength b)%nat eqn:E; lia.
Qed.

Lemma visibleLength_value_separator v (separate : bool) :
  (0 < visibleLength (sprintf_0x02X v ++ (if separate then ", " else "")) <= 5)%nat.
Proof. destruct separate; destruct v; cbn; lia. Qed.

Lemma length_value_separator v (separate : bool) :
  (String.length (sprintf_0x02X v ++ (if separate then ", " else "")) <= 6)%nat.
Proof. destruct separate; cbn; lia. Qed.

Lemma lines_single a : newlineFree a = true -> lines a = [a].
Proof.
  induction a as [|c a IH]; intros H; [reflexivity|].
  cbn in H. apply andb_true_iff in H. destruct H as [Hc Ha].
  cbn [lines]. rewrite (IH Ha).
  apply negb_true_iff in Hc. now rewrite Hc.
Qed.

Lemma lines_line a rest :
  newlineFree a = true -> lines (a ++ endl ++ rest) = a :: lines rest.
Proof.
  induction a as [|c a IH]; intros H; [reflexivity|].
  cbn in H. apply andb_true_iff in H. destruct H as [Hc Ha].
  cbn [append lines]. rewrite (IH Ha).
  apply negb_true_iff in Hc. now rewrite Hc.
Qed.

(** The loop in any state, behind the text [current] of the line it is
    on: when the tokens that may still join that line fit below [bound],
    no line shows more than [bound] characters. *)
Lemma dumpValues_visible_width k perLine n (bound : Z) rest :
  forall i valuesThisLine current,
    newlineFree current = true ->
    0 <= valuesThisLine -> perLine <= UINT_MAX ->
    Z.of_nat k + 6 * Z.max perLine 1 <= bound + 1 ->
    Z.of_nat (visibleLength current) <= bound ->
    Z.of_nat (String.length current)
      + 6 * Z.max 0 (perLine - valuesThisLine) <= bound + 1 ->
    Forall (fun line =>
              Z.of_nat (visibleLength line) <= bound
              /\ Z.of_nat (String.length line) <= bound + 1)
      (lines (current ++ dumpValues (spaces k) perLine n i valuesThisLine rest)).
Proof.
  induction rest as [|v rest IH];
    intros i vtl current Hfree Hvtl Hper Hfull Hvisible Hroom.
  - cbn [dumpValues]. rewrite append_nil_r, lines_single by assumption.
    constructor; [split; [exact Hvisible | lia] | constructor].
  - cbn [dumpValues].
    set (separate := i <? to_unsigned_long (n - 1)).
    pose proof (visibleLength_value_separator v separate) as Hshown.
    pose proof (length_value_separator v separate) as Hlength.
    assert (Hpiece : newlineFree (sprintf_0x02X v ++ (if separate then ", " else ""))
                     = true)
      by (rewrite newlineFree_app, newlineFree_value; now destruct separate).
    destruct (Z.leb_spec perLine vtl) as [Hbreak | Hsame].
    + replace (current ++ (endl ++ spaces k) ++ sprintf_0x02X v
                 ++ (if separate then ", " else "")
                 ++ dumpValues (spaces k) perLine n (to_unsigned_long (i + 1)) 1 rest)
        with (current ++ endl
              ++ (spaces k ++ sprintf_0x02X v ++ (if separate then ", " else ""))
              ++ dumpValues (spaces k) perLine n (to_unsigned_long (i + 1)) 1 rest)
        by (now rewrite !append_assoc).
      rewrite lines_line by assumption.
      constructor; [split; [exact Hvisible | lia]|].
      apply IH; try assumption; try lia.
      * now rewrite newlineFree_app, newlineFree_spaces.
      * rewrite visibleLength_append, length_spaces by lia. lia.
      * rewrite length_append, length_spaces. lia.
    + replace (current ++ "" ++ sprintf_0x02X v
                 ++ (if separate then ", " else "")
                 ++ dumpValues (spaces k) perLine n (to_unsigned_long (i + 1))
                      (to_unsigned (vtl + 1)) rest)
        with ((current ++ sprintf_0x02X v ++ (if separate then ", " else ""))
              ++ dumpValues (spaces k) perLine n (to_unsigned_long (i + 1))
                   (to_unsigned (vtl + 1)) rest)
        by (cbn [append]; now rewrite !append_assoc).
      rewrite to_unsigned_small by bounds.
      apply IH; try assumption; try lia.
      * now rewrite newlineFree_app, Hfree.
      * rewrite visibleLength_append by lia. lia.
      * rewrite length_append. lia.
Qed.

(** X3.  When at least one token fits ([width - indentation -
    leftIndentation + 1] is at least 6 and the indentations do not wrap
    around), no line of the array body shows more than [width]
    characters: only the blank behind the last comma of a full line may
    stand in column [width + 1]. *)
Theorem arrayBody_within_width :
  forall (leftIndentation indentation width : Z) (B : list byte),
    0 <= leftIndentation -> 0 <= indentation ->
    leftIndentation + indentation <= UINT_MAX ->
    6 <= width - indentation - leftIndentation + 1 <= UINT_MAX ->
    Forall (fun line =>
              Z.of_nat (visibleLength line) <= width
              /\ Z.of_nat (String.length line) <= width + 1)
      (lines (arrayBody leftIndentation indentation width B)).
Proof.
  intros left ind width B Hleft Hind Hfit Hroom.
  unfold arrayBody, contentsIndentationString.
  pose proof (valuesPerLine_range left ind width) as Hrange.
  assert (Hper : 6 * valuesPerLine left ind width <= width - ind - left + 1).
  { unfold valuesPerLine. rewrite to_unsigned_small by bounds.
    apply Z.mul_div_le. lia. }
  assert (Hone : 1 <= valuesPerLine left ind width).
  { unfold valuesPerLine. rewrite to_unsigned_small by bounds.
    apply Z.div_le_lower_bound; lia. }
  change (dumpValues ?a ?b ?c ?d ?e ?f) with ("" ++ dumpValues a b c d e f).
  apply dumpValues_visible_width; try reflexivity; try lia.
  - rewrite to_unsigned_small by bounds. lia.
  - cbn. lia.
  - cbn [String.length Z.of_nat]. lia.
Qed.

Lemma arrayBody_within_width_witness :
  Forall (fun line =>
            Z.of_nat (visibleLength line) <= 20
            /\ Z.of_nat (String.length line) <= 20 + 1)
    (lines (arrayBody 4 4 20 [xde; xad; xbe; xef; x00])).
Proof.
  apply (arrayBody_within_width 4 4 20 [xde; xad; xbe; xef; x00]);
    vm_compute; try split; discriminate.
Defined.



(** ** The characters of a prefix *)

Lemma rfind_none_absent c s :
  rfind c s = None -> ~ In c (list_ascii_of_string s).
Proof.
  induction s as [|a s IH]; cbn; intros H; [tauto|].
  destruct (rfind c s); [discriminate|].
  destruct (Ascii.eqb_spec a c); [discriminate|].
  intros [Heq | Hin]; [congruence | now apply IH].
Qed.

Lemma substr_add p q s : substr (p + q) s = substr q (substr p s).
Proof.
  revert s. induction p as [|p IH]; intros s; [reflexivity|].
  destruct s as [|a s]; cbn; [now destruct q | apply IH].
Qed.

Lemma substr_subset c p s :
  In c (list_ascii_of_string (substr p s)) -> In c (list_ascii_of_string s).
Proof.
  revert s. induction p as [|p IH]; intros s H; [exact H|].
  destruct s as [|a s]; [exact H|]. right. apply IH, H.
Qed.

Lemma substr_length p s : (String.length (substr p s) <= String.length s)%nat.
Proof.
  revert s. induction p as [|p IH]; intros s; [cbn; lia|].
  destruct s as [|a s]; cbn; [lia|]. specialize (IH s). lia.
Qed.

(** Behind its last occurrence a character does not occur. *)
Lemma substr_after_last c s position :
  rfind c s = Some position ->
  ~ In c (list_ascii_of_string (substr (position + 1) s)).
Proof.
  revert position. induction s as [|a s IH]; intros position H; cbn in H.
  - discriminate.
  - destruct (rfind c s) as [q|] eqn:E.
    + injection H as <-. cbn. now apply IH.
    + destruct (Ascii.eqb a c); [|discriminate].
      injection H as <-. cbn. now apply rfind_none_absent.
Qed.

Lemma substr_after_later c s position later :
  rfind c s = Some position -> (position <= later)%nat ->
  ~ In c (list_ascii_of_string (substr (later + 1) s)).
Proof.
  intros H Hle Hin.
  apply (substr_after_last c s position H).
  replace (later + 1)%nat with ((position + 1) + (later - position))%nat in Hin by lia.
  rewrite substr_add in Hin. now apply substr_subset in Hin.
Qed.

Lemma replace_absent old new c s :
  c <> new -> ~ In c (list_ascii_of_string s) ->
  ~ In c (list_ascii_of_string (replace old new s)).
Proof.
  intros Hnew. induction s as [|a s IH]; cbn; intros H; [tauto|].
  intros [Heq | Hin]; [|now apply IH; tauto].
  destruct (Ascii.eqb a old); [congruence | tauto].
Qed.

Lemma replace_removes old new s :
  old <> new -> ~ In old (list_ascii_of_string (replace old new s)).
Proof.
  intros Hnew. induction s as [|a s IH]; cbn; [tauto|].
  intros [Heq | Hin]; [|now apply IH].
  destruct (Ascii.eqb_spec a old); congruence.
Qed.

Lemma replace_length old new s :
  String.length (replace old new s) = String.length s.
Proof. induction s as [|a s IH]; cbn; [reflexivity | now rewrite IH]. Qed.

Lemma replace_unchanged old new s :
  ~ In old (list_ascii_of_string s) -> replace old new s = s.
Proof.
  induction s as [|a s IH]; cbn; intros H; [reflexivity|].
  rewrite IH by tauto.
  destruct (Ascii.eqb_spec a old); [subst; tauto | reflexivity].
Qed.

(** What is left of the path before the dots are replaced holds no
    separator and is not longer than the path. *)
Lemma resolvePrefix_characters path :
  ~ In "/"%char (list_ascii_of_string (resolvePrefix path))
  /\ ~ In backslash (list_ascii_of_string (resolvePrefix path))
  /\ ~ In "."%char (list_ascii_of_string (resolvePrefix path))
  /\ (String.length (resolvePrefix path) <= String.length path)%nat.
Proof.
  unfold resolvePrefix.
  assert (Hslash : "/"%char <> "_"%char) by discriminate.
  assert (Hback : backslash <> "_"%char) by discriminate.
  assert (Hdot : "."%char <> "_"%char) by discriminate.
  destruct (rfind "/" path) as [forward|] eqn:Ef;
    destruct (rfind backslash path) as [backward|] eqn:Eb; cbv zeta;
    (split; [apply replace_absent; [exact Hslash|]
            | split; [apply replace_absent; [exact Hback|]
                     | split; [now apply replace_removes
                              | rewrite replace_length;
                                try apply substr_length; try lia]]]).
  - apply (substr_after_later _ _ forward); [assumption | lia].
  - apply (substr_after_later _ _ backward); [assumption | lia].
  - now apply substr_after_last.
  - intros H. apply substr_subset in H. now apply (rfind_none_absent _ _ Eb).
  - intros H. apply substr_subset in H. now apply (rfind_none_absent _ _ Ef).
  - now apply substr_after_last.
  - now apply rfind_none_absent.
  - now apply rfind_none_absent.
Qed.

(** X4.  Whatever the path, the prefix holds no [/], no [\] and no [.],
    and it is not longer than the path. *)
Theorem resolvePrefix_clean :
  forall path : string,
    let prefix := resolvePrefix path in
    (forall c, In c (list_ascii_of_string prefix) ->
               c <> "/"%char /\ c <> backslash /\ c <> "."%char)
    /\ (String.length prefix <= String.length path)%nat.
Proof.
  intros path prefix.
  destruct (resolvePrefix_characters path) as (Hslash & Hback & Hdot & Hlength).
  split; [|exact Hlength].
  intros c Hc. repeat split; intros ->; tauto.
Qed.

(** X5.  Resolving a prefix again changes nothing: a prefix is its own
    prefix. *)
Theorem resolvePrefix_idempotent :
  forall path : string,
    resolvePrefix (resolvePrefix path) = resolvePrefix path.
Proof.
  intros path.
  destruct (resolvePrefix_characters path) as (Hslash & Hback & Hdot & _).
  unfold resolvePrefix at 1.
  rewrite (rfind_absent _ _ Hslash), (rfind_absent _ _ Hback).
  now apply replace_unchanged.
Qed.


(** ** The banner *)

Lemma starRow_none first limit : starRow first limit = None <-> limit = UINT_MAX.
Proof.
  unfold starRow. destruct (Z.eqb_spec limit UINT_MAX); split; intros H;
    congruence.
Qed.

Lemma width_minus_1_wraps w :
  is_unsigned w -> (to_unsigned (w - 1) = UINT_MAX <-> w = 0).
Proof.
  intros Hw. unfold to_unsigned.
  assert (Hcases : w = 0 \/ 1 <= w) by bounds.
  destruct Hcases as [-> | Hpositive]; [split; reflexivity|].
  rewrite Z.mod_small by bounds. bounds.
Qed.

Lemma width_minus_4_wraps w :
  is_unsigned w -> (to_unsigned (w - 4) = UINT_MAX <-> w = 3).
Proof.
  intros Hw. unfold to_unsigned.
  assert (Hcases : w < 4 \/ 4 <= w) by lia.
  destruct Hcases as [Hsmall | Hlarge].
  - replace ((w - 4) mod 2 ^ 32) with (w - 4 + 2 ^ 32).
    + bounds.
    + apply Z.mod_unique with (q := -1); bounds.
  - rewrite Z.mod_small by bounds. bounds.
Qed.

(** X6.  The banner comes to an end unless it is written (a copyright or
    a description is wanted) and one of its rows of stars has the bound
    [UINT_MAX]: that is for [width = 2^32 - 1], for [width = 0], and, when
    both the copyright and a description are written, for [width = 3]. *)
Theorem banner_never_ends :
  forall (description copyrightMessage : string) (noCopyrightMessage : bool)
         (width : Z),
    is_unsigned width ->
    (banner description copyrightMessage noCopyrightMessage width = None
     <-> (noCopyrightMessage = false \/ description <> "")
         /\ (width = UINT_MAX \/ width = 0
             \/ (noCopyrightMessage = false /\ description <> "" /\ width = 3))).
Proof.
  intros description copyrightMessage noCopyright width Hwidth.
  pose proof (starRow_none 13 width) as Htop.
  pose proof (starRow_none 1 (to_unsigned (width - 4))) as Hmiddle.
  pose proof (starRow_none 1 (to_unsigned (width - 1))) as Hbottom.
  rewrite (width_minus_4_wraps width Hwidth) in Hmiddle.
  rewrite (width_minus_1_wraps width Hwidth) in Hbottom.
  unfold banner.
  assert (Hempty : isEmpty description = true <-> description = "")
    by (destruct description; cbn; split; intros H; congruence).
  destruct noCopyright, (isEmpty description);
    cbn [negb orb andb];
    destruct (starRow 13 width) as [top|];
    destruct (starRow 1 (to_unsigned (width - 4))) as [middle|];
    destruct (starRow 1 (to_unsigned (width - 1))) as [bottom|];
    intuition (try discriminate; try congruence).
Qed.

Lemma banner_never_ends_witness :
  banner "" "Copyright" false 0 = None
  /\ banner "Payload" "Copyright" false 3 = None
  /\ banner "" "Copyright" true 0 <> None.
Proof.
  assert (H0 : is_unsigned 0) by (vm_compute; split; discriminate).
  assert (H3 : is_unsigned 3) by (vm_compute; split; discriminate).
  split; [|split].
  - apply (banner_never_ends "" "Copyright" false 0 H0).
    split; [left; reflexivity | right; left; reflexivity].
  - apply (banner_never_ends "Payload" "Copyright" false 3 H3).
    split; [left; reflexivity|].
    right; right. repeat split; discriminate.
  - intros H. apply (banner_never_ends "" "Copyright" true 0 H0) in H.
    destruct H as [[H | H] _]; [discriminate | now apply H].
Defined.

(** The banner read line by line. *)

Lemma getlines_newlineFree message :
  Forall (fun line => newlineFree line = true) (getlines message).
Proof.
  induction message as [|c message IH]; cbn [getlines]; [constructor|].
  destruct (isNewline c) eqn:E; [constructor; [reflexivity | exact IH]|].
  destruct (getlines message) as [|line rest]; cbn [consHead].
  - constructor; [cbn; now rewrite E | constructor].
  - inversion IH; subst. constructor; [cbn; now rewrite E | assumption].
Qed.

Lemma getlines_commentLines_lines ls rest :
  Forall (fun line => newlineFree line = true) ls ->
  getlines (joined (map (fun line => "* " ++ line ++ endl) ls) ++ rest)
  = (map (append "* ") ls ++ getlines rest)%list.
Proof.
  unfold joined.
  induction ls as [|line ls IH]; intros H; [reflexivity|].
  inversion H; subst. cbn [map fold_right].
  rewrite !append_assoc. rewrite <- (append_assoc "* " line).
  rewrite getlines_line by (rewrite newlineFree_app; cbn; assumption).
  cbn [app]. f_equal. now apply IH.
Qed.

Lemma getlines_commentLines message rest :
  getlines (commentLines message ++ rest)
  = (map (append "* ") (getlines message) ++ getlines rest)%list.
Proof. apply getlines_commentLines_lines, getlines_newlineFree. Qed.

Lemma newlineFree_stars k : newlineFree (stars k) = true.
Proof. induction k as [|k IH]; [reflexivity | exact IH]. Qed.

Lemma length_stars k : String.length (stars k) = k.
Proof. induction k as [|k IH]; cbn; [reflexivity | now rewrite IH]. Qed.

Lemma starRow_some first limit :
  limit <> UINT_MAX ->
  starRow first limit = Some (stars (Z.to_nat (limit - first + 1))).
Proof.
  intros H. unfold starRow. now destruct (Z.eqb_spec limit UINT_MAX).
Qed.

(** X7.  For [12 <= width < 2^32 - 1] a banner that is written reads,
    line by line: the opening row; the lines of the copyright message,
    each behind ["* "]; the row that ends the copyright when a description
    follows; [* \file], [*] and the lines of the description, each
    behind ["* "]; the closing row and a blank line.  The three rows are
    exactly [width] characters wide. *)
Theorem banner_lines :
  forall (description copyrightMessage : string) (noCopyrightMessage : bool)
         (width : Z),
    12 <= width < UINT_MAX ->
    noCopyrightMessage = false \/ description <> "" ->
    let top := "/*-*-c++-*-*" ++ stars (Z.to_nat (width - 12)) in
    let middle := stars (Z.to_nat (width - 4)) ++ "//**" in
    let bottom := stars (Z.to_nat (width - 1)) ++ "/" in
    exists text,
      banner description copyrightMessage noCopyrightMessage width = Some text
      /\ getlines text
         = (top
            :: (if noCopyrightMessage then []
                else map (append "* ") (getlines copyrightMessage))
            ++ (if negb noCopyrightMessage && negb (isEmpty description)
                then [middle] else [])
            ++ (if isEmpty description then []
                else "* \file" :: "*"
                     :: map (append "* ") (getlines description))
            ++ [bottom; ""])%list
      /\ Z.of_nat (String.length top) = width
      /\ Z.of_nat (String.length middle) = width
      /\ Z.of_nat (String.length bottom) = width.
Proof.
  intros description copyrightMessage noCopyright width Hwidth Hwritten
    top middle bottom.
  assert (Htop : starRow 13 width = Some (stars (Z.to_nat (width - 12)))).
  { rewrite starRow_some by lia. do 2 f_equal. lia. }
  assert (Hmiddle : starRow 1 (to_unsigned (width - 4))
                    = Some (stars (Z.to_nat (width - 4)))).
  { rewrite to_unsigned_small by bounds.
    rewrite starRow_some by bounds. do 2 f_equal. lia. }
  assert (Hbottom : starRow 1 (to_unsigned (width - 1))
                    = Some (stars (Z.to_nat (width - 1)))).
  { rewrite to_unsigned_small by bounds.
    rewrite starRow_some by bounds. do 2 f_equal. lia. }
  assert (Hfree_top : newlineFree top = true)
    by (unfold top; now rewrite newlineFree_app, newlineFree_stars).
  assert (Hfree_middle : newlineFree middle = true)
    by (unfold middle; now rewrite newlineFree_app, newlineFree_stars).
  assert (Hfree_bottom : newlineFree bottom = true)
    by (unfold bottom; now rewrite newlineFree_app, newlineFree_stars).
  assert (Hend : getlines (bottom ++ endl ++ endl) = [bottom; ""]).
  { rewrite getlines_line by assumption. reflexivity. }
  unfold banner. rewrite Htop, Hmiddle, Hbottom.
  assert (Hlengths :
    Z.of_nat (String.length top) = width
    /\ Z.of_nat (String.length middle) = width
    /\ Z.of_nat (String.length bottom) = width).
  { unfold top, middle, bottom. rewrite !length_append, !length_stars.
    cbn [String.length]. lia. }
  destruct noCopyright, description as [|c description];
    cbn [negb orb andb isEmpty];
    try (destruct Hwritten; congruence).
  - eexists. split; [reflexivity|]. split; [|exact Hlengths].
    replace ("/*-*-c++-*-*" ++ stars (Z.to_nat (width - 12)) ++ endl ++ "" ++ ""
             ++ ("* \file" ++ endl ++ "*" ++ endl
                 ++ commentLines (String c description))
             ++ stars (Z.to_nat (width - 1)) ++ "/" ++ endl ++ endl)
      with (top ++ endl ++ "* \file" ++ endl ++ "*" ++ endl
            ++ commentLines (String c description) ++ bottom ++ endl ++ endl)
      by (unfold top, bottom; cbn [append]; now rewrite !append_assoc).
    rewrite getlines_line by assumption.
    rewrite (getlines_line "* \file") by reflexivity.
    rewrite (getlines_line "*") by reflexivity.
    now rewrite getlines_commentLines, Hend.
  - eexists. split; [reflexivity|]. split; [|exact Hlengths].
    replace ("/*-*-c++-*-*" ++ stars (Z.to_nat (width - 12)) ++ endl
             ++ commentLines copyrightMessage ++ "" ++ ""
             ++ stars (Z.to_nat (width - 1)) ++ "/" ++ endl ++ endl)
      with (top ++ endl ++ commentLines copyrightMessage
            ++ bottom ++ endl ++ endl)
      by (unfold top, bottom; cbn [append]; now rewrite !append_assoc).
    rewrite getlines_line by assumption.
    now rewrite getlines_commentLines, Hend.
  - eexists. split; [reflexivity|]. split; [|exact Hlengths].
    replace ("/*-*-c++-*-*" ++ stars (Z.to_nat (width - 12)) ++ endl
             ++ commentLines copyrightMessage
             ++ (stars (Z.to_nat (width - 4)) ++ "//**" ++ endl)
             ++ ("* \file" ++ endl ++ "*" ++ endl
                 ++ commentLines (String c description))
             ++ stars (Z.to_nat (width - 1)) ++ "/" ++ endl ++ endl)
      with (top ++ endl ++ commentLines copyrightMessage
            ++ middle ++ endl ++ "* \file" ++ endl ++ "*" ++ endl
            ++ commentLines (String c description) ++ bottom ++ endl ++ endl)
      by (unfold top, middle, bottom; cbn [append]; now rewrite !append_assoc).
    rewrite getlines_line by assumption.
    rewrite getlines_commentLines.
    rewrite getlines_line by assumption.
    rewrite (getlines_line "* \file") by reflexivity.
    rewrite (getlines_line "*") by reflexivity.
    now rewrite getlines_commentLines, Hend.
Qed.

Lemma banner_lines_witness :
  exists text,
    banner "Two payloads" "(c) X" false 20 = Some text
    /\ getlines text
       = ["/*-*-c++-*-*********"; "* (c) X"; "****************//**";
          "* \file"; "*"; "* Two payloads"; "*******************/"; ""].
Proof.
  assert (Hwidth : 12 <= 20 < UINT_MAX) by (vm_compute; split; [discriminate | reflexivity]).
  destruct (banner_lines "Two payloads" "(c) X" false 20 Hwidth (or_introl eq_refl))
    as (text & Hbanner & Hlines & _).
  exists text. split; [exact Hbanner|]. rewrite Hlines. reflexivity.
Defined.

(** ** Several inputs *)

Section SeveralInputs.

Variable qCompress : list byte -> Z -> list byte.
Variable indeterminate : nat -> byte.
Variable world : World.
Variable outputStream : option string.
Variables leftIndentation indentation width : Z.
Variables variableName variableType sizeVariableName sizeVariableType : string.
Variable zlibCompress : bool.

(** When every input can be opened and none is the output file, the loop
    writes their blocks, one call of [parseAndDumpInput] after the
    other. *)
Lemma dumpInputs_all_readable inputs remaining : forall written call,
  Forall (fun name => isOutputFile world outputStream name = false
                      /\ inputFile world name <> None) remaining ->
  dumpInputs qCompress indeterminate world inputs remaining outputStream
    written call
    leftIndentation indentation width variableName variableType
    sizeVariableName sizeVariableType zlibCompress
  = {| succeeded := true;
       toOutput :=
         blocksOf qCompress indeterminate world leftIndentation
           indentation width variableName variableType
           sizeVariableName sizeVariableType zlibCompress call remaining;
       toError := "" |}.
Proof.
  induction remaining as [|name remaining IH]; intros written call Hreadable;
    cbn [dumpInputs blocksOf]; [reflexivity|].
  inversion Hreadable as [|? ? [Hname Hopen] Hothers]; subst.
  rewrite openInput_other by assumption.
  destruct (inputFile world name) as [contents|] eqn:E; [|congruence].
  rewrite (blockOf_readable qCompress indeterminate world leftIndentation
             indentation width variableName variableType sizeVariableName
             sizeVariableType zlibCompress call name contents E).
  cbn [parseAndDumpInput snd].
  rewrite (IH _ _ Hothers).
  cbn [succeeded toOutput toError].
  now rewrite append_assoc.
Qed.

End SeveralInputs.





(** ** The namespace is left open *)

Lemma braceFree_app a b : braceFree (a ++ b) = braceFree a && braceFree b.
Proof.
  induction a as [|c a IH]; [reflexivity|].
  cbn [append braceFree]. rewrite IH. now rewrite andb_assoc.
Qed.

Lemma nesting_app a : forall depth b,
  nesting depth (a ++ b)
  = match nesting depth a with
    | Some inner => nesting inner b
    | None => None
    end.
Proof.
  induction a as [|c a IH]; intros depth b; [reflexivity|].
  cbn [append nesting].
  destruct (Ascii.eqb c "{"); [apply IH|].
  destruct (Ascii.eqb c "}"); [|apply IH].
  destruct depth; [reflexivity | apply IH].
Qed.

Lemma nesting_braceFree s : forall depth,
  braceFree s = true -> nesting depth s = Some depth.
Proof.
  induction s as [|c s IH]; intros depth H; [reflexivity|].
  cbn [braceFree] in H. apply andb_true_iff in H. destruct H as [Hc Hs].
  unfold isBrace in Hc. apply negb_true_iff, orb_false_iff in Hc.
  destruct Hc as [Hopen Hclose].
  cbn [nesting]. rewrite Hopen, Hclose. now apply IH.
Qed.

Lemma braceFree_spaces k : braceFree (spaces k) = true.
Proof. induction k as [|k IH]; [reflexivity | exact IH]. Qed.

Lemma braceFree_digits digits :
  braceFree (NilEmpty.string_of_uint digits) = true.
Proof.
  induction digits as [|d IH|d IH|d IH|d IH|d IH|d IH|d IH|d IH|d IH|d IH];
    [reflexivity | exact IH ..].
Qed.

Lemma braceFree_decimal n : braceFree (decimal n) = true.
Proof.
  unfold decimal, NilZero.string_of_uint.
  destruct (N.to_uint (Z.to_N n)); try apply braceFree_digits. reflexivity.
Qed.

Lemma braceFree_sprintf_0x02X v : braceFree (sprintf_0x02X v) = true.
Proof. destruct v; reflexivity. Qed.

Lemma braceFree_dumpValues contentsIndentation perLine numberBytes outputData :
  braceFree contentsIndentation = true ->
  forall i valuesThisLine,
    braceFree (dumpValues contentsIndentation perLine numberBytes i
                 valuesThisLine outputData) = true.
Proof.
  intros Hindentation.
  induction outputData as [|v rest IH]; intros i valuesThisLine;
    [reflexivity|].
  cbn [dumpValues]. rewrite !braceFree_app, braceFree_sprintf_0x02X, IH.
  destruct (perLine <=? valuesThisLine);
    destruct (i <? to_unsigned_long (numberBytes - 1));
    rewrite ?braceFree_app, ?Hindentation; reflexivity.
Qed.

Lemma braceFree_replace s :
  braceFree s = true -> braceFree (replace "." "_" s) = true.
Proof.
  induction s as [|c s IH]; intros H; [reflexivity|].
  cbn [braceFree] in H. apply andb_true_iff in H. destruct H as [Hc Hs].
  cbn [replace braceFree]. rewrite (IH Hs).
  destruct (Ascii.eqb c "."); [reflexivity | now rewrite Hc].
Qed.

Lemma braceFree_substr s : forall pos,
  braceFree s = true -> braceFree (substr pos s) = true.
Proof.
  induction s as [|c s IH]; intros pos H; destruct pos; cbn [substr];
    try assumption; try reflexivity.
  cbn [braceFree] in H. apply andb_true_iff in H. now apply IH.
Qed.

Lemma braceFree_resolvePrefix name :
  braceFree name = true -> braceFree (resolvePrefix name) = true.
Proof.
  intros H. unfold resolvePrefix. apply braceFree_replace.
  destruct (rfind "/" name), (rfind backslash name);
    try apply braceFree_substr; assumption.
Qed.

Lemma braceFree_contentsComment name :
  braceFree name = true -> braceFree (contentsComment name) = true.
Proof.
  intros H. unfold contentsComment.
  now rewrite !braceFree_app, H.
Qed.

(** A block opens one scope and closes it again. *)
Lemma nesting_dumpOutput outputData leftIndentation indentation width
    prefix variableName variableType sizeVariableName sizeVariableType depth :
  braceFree prefix = true ->
  braceFree variableName = true -> braceFree variableType = true ->
  braceFree sizeVariableName = true -> braceFree sizeVariableType = true ->
  nesting depth
    (dumpOutput outputData leftIndentation indentation width prefix
       variableName variableType sizeVariableName sizeVariableType)
  = Some depth.
Proof.
  intros Hprefix Hvn Hvt Hsvn Hsvt.
  unfold dumpOutput, leftIndentationString.
  set (left := spaces (Z.to_nat leftIndentation)).
  set (size := decimal (Z.of_nat (List.length outputData))).
  set (body := arrayBody leftIndentation indentation width outputData).
  assert (Hleft : braceFree left = true) by apply braceFree_spaces.
  assert (Hsize : braceFree size = true) by apply braceFree_decimal.
  assert (Hbody : braceFree body = true)
    by (apply braceFree_dumpValues, braceFree_spaces).
  replace (left ++ variableType ++ " " ++ prefix ++ variableName
           ++ "[" ++ size ++ "] = {" ++ body ++ endl ++ left ++ "};" ++ endl
           ++ endl ++ left ++ sizeVariableType ++ " " ++ prefix
           ++ sizeVariableName ++ " = " ++ size ++ ";" ++ endl ++ endl)
    with ((left ++ variableType ++ " " ++ prefix ++ variableName
           ++ "[" ++ size ++ "] = ")
          ++ "{" ++ (body ++ endl ++ left)
          ++ "}" ++ (";" ++ endl ++ endl ++ left ++ sizeVariableType ++ " "
                     ++ prefix ++ sizeVariableName ++ " = " ++ size ++ ";"
                     ++ endl ++ endl))
    by (now rewrite !append_assoc).
  rewrite nesting_app, nesting_braceFree
    by (now rewrite !braceFree_app, Hleft, Hvt, Hprefix, Hvn, Hsize).
  change ("{" ++ (body ++ endl ++ left) ++ "}"
          ++ (";" ++ endl ++ endl ++ left ++ sizeVariableType ++ " " ++ prefix
              ++ sizeVariableName ++ " = " ++ size ++ ";" ++ endl ++ endl))
    with (String "{" ((body ++ endl ++ left) ++ "}"
          ++ (";" ++ endl ++ endl ++ left ++ sizeVariableType ++ " " ++ prefix
              ++ sizeVariableName ++ " = " ++ size ++ ";" ++ endl ++ endl))).
  cbn [nesting Ascii.eqb Bool.eqb].
  rewrite nesting_app, nesting_braceFree
    by (now rewrite !braceFree_app, Hbody, Hleft).
  change ("}" ++ (";" ++ endl ++ endl ++ left ++ sizeVariableType ++ " "
                  ++ prefix ++ sizeVariableName ++ " = " ++ size ++ ";"
                  ++ endl ++ endl))
    with (String "}" (";" ++ endl ++ endl ++ left ++ sizeVariableType ++ " "
                      ++ prefix ++ sizeVariableName ++ " = " ++ size ++ ";"
                      ++ endl ++ endl)).
  cbn [nesting Ascii.eqb Bool.eqb].
  apply nesting_braceFree.
  now rewrite !braceFree_app, Hleft, Hsvt, Hprefix, Hsvn, Hsize.
Qed.

Section Braces.

Variable qCompress : list byte -> Z -> list byte.
Variable indeterminate : nat -> byte.
Variable world : World.
Variable outputStream : option string.
Variables leftIndentation indentation width : Z.
Variables variableName variableType sizeVariableName sizeVariableType : string.
Variable zlibCompress : bool.

Hypothesis variableName_plain : braceFree variableName = true.
Hypothesis variableType_plain : braceFree variableType = true.
Hypothesis sizeVariableName_plain : braceFree sizeVariableName = true.
Hypothesis sizeVariableType_plain : braceFree sizeVariableType = true.

Lemma dumpInputs_nesting inputs remaining : forall written call depth,
  Forall (fun name => braceFree name = true) remaining ->
  nesting depth
    (toOutput
       (dumpInputs qCompress indeterminate world inputs remaining
          outputStream written call leftIndentation indentation width
          variableName variableType sizeVariableName sizeVariableType
          zlibCompress))
  = Some depth.
Proof.
  induction remaining as [|name remaining IH]; intros written call depth Hplain;
    cbn [dumpInputs]; [reflexivity|].
  inversion Hplain as [|? ? Hname Hothers]; subst.
  destruct (openInput world outputStream (written ++ contentsComment name) name)
    as [contents|]; [|reflexivity].
  cbn [parseAndDumpInput toOutput].
  rewrite nesting_app, nesting_braceFree
    by now apply braceFree_contentsComment.
  rewrite nesting_app, nesting_dumpOutput
    by (assumption || now apply braceFree_resolvePrefix).
  now apply IH.
Qed.

Lemma dumpPayloads_nesting inputs written depth :
  Forall (fun name => braceFree name = true) inputs ->
  nesting depth
    (toOutput
       (dumpPayloads qCompress indeterminate world inputs outputStream
          written leftIndentation indentation width
          variableName variableType sizeVariableName sizeVariableType
          zlibCompress))
  = Some depth.
Proof.
  intros Hplain. unfold dumpPayloads.
  destruct inputs as [|name [|other inputs]].
  - cbn [parseAndDumpInput toOutput].
    now apply nesting_dumpOutput.
  - destruct (openInput world outputStream written name) as [contents|];
      [|reflexivity].
    cbn [parseAndDumpInput toOutput].
    now apply nesting_dumpOutput.
  - now apply dumpInputs_nesting.
Qed.

End Braces.



(** ** The argument loop *)

Section ArgumentLoop.

Variable strtoul : string -> Z.

(** An argument that is no switch joins the inputs. *)
Lemma handleArgument_file argument next l :
  isFile argument = true ->
  handleArgument strtoul argument next l
  = (set_inputs (inputs l ++ [argument]) l, false).
Proof.
  intros H. unfold isFile, knownSwitches in H. cbn [existsb] in H.
  apply negb_true_iff in H.
  repeat (apply orb_false_iff in H; destruct H as [? H]).
  unfold handleArgument, isSwitch.
  repeat match goal with
         | E : (argument =? _)%string = false |- _ => rewrite E; clear E
         end.
  reflexivity.
Qed.

Lemma set_inputs_same l : set_inputs (inputs l ++ []) l = l.
Proof. destruct l. cbn. now rewrite app_nil_r. Qed.

(** The loop over inputs only: they are appended in their order and
    nothing else changes. *)
Lemma parseArguments_files files : forall rest l,
  success l = true -> helpRequested l = false ->
  Forall (fun argument => isFile argument = true) files ->
  parseArguments strtoul (files ++ rest) l
  = parseArguments strtoul rest (set_inputs (inputs l ++ files) l).
Proof.
  induction files as [|file files IH]; intros rest l Hsuccess Hhelp Hfiles.
  - cbn [app]. now rewrite set_inputs_same.
  - inversion Hfiles as [|? ? Hfile Hothers]; subst.
    cbn [app parseArguments]. rewrite Hsuccess, Hhelp. cbn [negb andb].
    rewrite (handleArgument_file file _ l Hfile).
    assert (Hnext :
      match (files ++ rest)%list with
      | [] => parseArguments strtoul (files ++ rest)
                (set_inputs (inputs l ++ [file]) l)
      | _ :: rest' =>
          if false
          then parseArguments strtoul rest' (set_inputs (inputs l ++ [file]) l)
          else parseArguments strtoul (files ++ rest)
                 (set_inputs (inputs l ++ [file]) l)
      end
      = parseArguments strtoul (files ++ rest)
          (set_inputs (inputs l ++ [file]) l))
      by (now destruct (files ++ rest)%list).
    rewrite Hnext. rewrite IH by assumption.
    cbn [inputs set_inputs]. now rewrite <- app_assoc.
Qed.

Lemma parseArguments_nil l : parseArguments strtoul [] l = l.
Proof. cbn. now destruct (success l && negb (helpRequested l)). Qed.

End ArgumentLoop.

(** X11.  When no argument is a switch, the argument loop changes nothing
    but the inputs: they are the arguments, in their order, and every
    other local keeps its default. *)
Theorem parseArguments_collects_files :
  forall (strtoul : string -> Z) (files : list string),
    Forall (fun argument => isFile argument = true) files ->
    parseArguments strtoul files initialLocals
    = set_inputs files initialLocals.
Proof.
  intros strtoul files Hfiles.
  rewrite <- (app_nil_r files) at 1.
  rewrite parseArguments_files by (assumption || reflexivity).
  apply parseArguments_nil.
Qed.

Lemma parseArguments_collects_files_witness :
  inputs (parseArguments (decimalValue 0) ["b.bin"; "a.bin"; "-x"] initialLocals)
  = ["b.bin"; "a.bin"; "-x"].
Proof.
  rewrite (parseArguments_collects_files (decimalValue 0) ["b.bin"; "a.bin"; "-x"]).
  - reflexivity.
  - repeat constructor.
Defined.

(** X12.  When inputs are followed by a switch that takes a parameter and
    nothing comes after it, the run writes the one diagnostic that the
    switch is missing its parameter and ends with exit status 1; it writes
    nothing else, whatever the files hold. *)
Theorem main_missing_parameter :
  forall qCompress (g : nat -> byte) (strtoul : string -> Z) (world : World)
         (files : list string) (switch : string),
    Forall (fun argument => isFile argument = true) files ->
    In switch parameterSwitches ->
    main qCompress g strtoul world (files ++ [switch])
    = Some {| exitStatus := 1;
              standardOutput := "";
              standardError :=
                "*** The " ++ switch ++ " switch is missing a parameter." ++ endl;
              fileWritten := None |}.
Proof.
  intros qCompress g strtoul world files switch Hfiles Hswitch.
  unfold main.
  rewrite parseArguments_files by (assumption || reflexivity).
  unfold parameterSwitches in Hswitch. cbn [In] in Hswitch.
  repeat (destruct Hswitch as [<- | Hswitch]; [reflexivity|]).
  contradiction.
Qed.

Lemma main_missing_parameter_witness :
  main unusedCompressor zeroBytes (decimalValue 0) exampleWorld
    (["a.bin"; "c.bin"] ++ ["--output"])
  = Some {| exitStatus := 1;
            standardOutput := "";
            standardError :=
              "*** The --output switch is missing a parameter." ++ endl;
            fileWritten := None |}.
Proof.
  apply (main_missing_parameter unusedCompressor zeroBytes (decimalValue 0)
           exampleWorld ["a.bin"; "c.bin"] "--output").
  - repeat constructor.
  - cbn. tauto.
Defined.

(** X13.  When inputs are followed by [-h] or [--help], the run prints
    the help text and ends with exit status 0, whatever arguments follow
    and whatever the files hold: nothing is read, nothing else is
    written. *)
Theorem main_help :
  forall qCompress (g : nat -> byte) (strtoul : string -> Z) (world : World)
         (files : list string) (switch : string) (rest : list string),
    Forall (fun argument => isFile argument = true) files ->
    switch = "-h" \/ switch = "--help" ->
    main qCompress g strtoul world (files ++ switch :: rest)
    = Some {| exitStatus := 0;
              standardOutput := helpText;
              standardError := "";
              fileWritten := None |}.
Proof.
  intros qCompress g strtoul world files switch rest Hfiles Hswitch.
  unfold main.
  rewrite parseArguments_files by (assumption || reflexivity).
  destruct Hswitch as [-> | ->]; destruct rest as [|next rest];
    cbn [parseArguments initialLocals set_inputs success helpRequested
         negb andb handleArgument isSwitch String.eqb Ascii.eqb Bool.eqb orb
         set_helpRequested errors];
    reflexivity.
Qed.

Lemma main_help_witness :
  main unusedCompressor zeroBytes (decimalValue 0) exampleWorld
    (["missing.bin"] ++ "--help" :: ["--indentation"])
  = Some {| exitStatus := 0;
            standardOutput := helpText;
            standardError := "";
            fileWritten := None |}.
Proof.
  apply (main_help unusedCompressor zeroBytes (decimalValue 0) exampleWorld
           ["missing.bin"] "--help" ["--indentation"]).
  - repeat constructor.
  - right. reflexivity.
Defined.


Lemma parseArguments_stopped strtoul arguments l :
  success l = false -> parseArguments strtoul arguments l = l.
Proof. intros H. destruct arguments; cbn; now rewrite H. Qed.

(** X14.  The width is never refused: after inputs and the switch [-w]
    or [--width] with any parameter, 0 included, the loop goes on with
    [success] still true, nothing written to [std::cerr], and the width
    set to the parameter's value (modulo 2^32). *)
Theorem width_is_not_checked :
  forall (strtoul : string -> Z) (files : list string) (switch value : string),
    Forall (fun argument => isFile argument = true) files ->
    switch = "-w" \/ switch = "--width" ->
    parseArguments strtoul (files ++ [switch; value]) initialLocals
    = set_width (to_unsigned (strtoul value)) (set_inputs files initialLocals).
Proof.
  intros strtoul files switch value Hfiles Hswitch.
  rewrite parseArguments_files by (assumption || reflexivity).
  destruct Hswitch as [-> | ->]; reflexivity.
Qed.

Lemma width_is_not_checked_witness :
  success (parseArguments (decimalValue 0) (["a.bin"] ++ ["--width"; "0"])
             initialLocals) = true
  /\ width (parseArguments (decimalValue 0) (["a.bin"] ++ ["--width"; "0"])
              initialLocals) = 0.
Proof.
  rewrite (width_is_not_checked (decimalValue 0) ["a.bin"] "--width" "0").
  - split; reflexivity.
  - repeat constructor.
  - right. reflexivity.
Defined.

(** X15.  An indentation whose value is 0 (modulo 2^32) ends the run:
    after inputs and [-i] or [--indentation] with such a parameter, the
    run writes the diagnostic of the invalid indentation and returns 1,
    whatever arguments follow; no file is read. *)
Theorem main_indentation_zero :
  forall qCompress (g : nat -> byte) (strtoul : string -> Z) (world : World)
         (files : list string) (switch value : string) (rest : list string),
    Forall (fun argument => isFile argument = true) files ->
    switch = "-i" \/ switch = "--indentation" ->
    to_unsigned (strtoul value) = 0 ->
    main qCompress g strtoul world (files ++ switch :: value :: rest)
    = Some {| exitStatus := 1;
              standardOutput := "";
              standardError := "*** Invalid indentation value " ++ value ++ endl;
              fileWritten := None |}.
Proof.
  intros qCompress g strtoul world files switch value rest Hfiles Hswitch Hzero.
  unfold main.
  rewrite parseArguments_files by (assumption || reflexivity).
  assert (Hround : forall l,
    handleArgument strtoul switch (Some value) l
    = (invalidValue "indentation" value (set_indentation 0 l), true)).
  { intros l. destruct Hswitch as [-> | ->];
      unfold handleArgument, isSwitch, withParameter;
      cbn [String.eqb Ascii.eqb Bool.eqb orb];
      cbn [set_indentation indentation]; rewrite Hzero; reflexivity. }
  cbn [parseArguments]. cbn [set_inputs initialLocals success helpRequested negb andb].
  cbn [hd_error]. rewrite Hround.
  rewrite parseArguments_stopped by reflexivity.
  reflexivity.
Qed.

Lemma main_indentation_zero_witness :
  main unusedCompressor zeroBytes (decimalValue 0) exampleWorld
    (["a.bin"] ++ "-i" :: "0" :: ["c.bin"])
  = Some {| exitStatus := 1;
            standardOutput := "";
            standardError := "*** Invalid indentation value 0" ++ endl;
            fileWritten := None |}.
Proof.
  apply (main_indentation_zero unusedCompressor zeroBytes (decimalValue 0)
           exampleWorld ["a.bin"] "-i" "0" ["c.bin"]).
  - repeat constructor.
  - left. reflexivity.
  - reflexivity.
Defined.


(** ** Where the text goes, and a run with the defaults *)

Section Elsewhere.

Variable qCompress : list byte -> Z -> list byte.
Variable indeterminate : nat -> byte.
Variable world : World.
Variable outputFilename : string.
Variables leftIndentation indentation width : Z.
Variables variableName variableType sizeVariableName sizeVariableType : string.
Variable zlibCompress : bool.

(** As long as the output file is not read, the loop over the inputs
    does not depend on where the text goes. *)
Lemma dumpInputs_elsewhere inputs remaining : forall written call,
  Forall (fun name => isOutputFile world (Some outputFilename) name = false)
    remaining ->
  dumpInputs qCompress indeterminate world inputs remaining
    (Some outputFilename) written call leftIndentation indentation width
    variableName variableType sizeVariableName sizeVariableType zlibCompress
  = dumpInputs qCompress indeterminate world inputs remaining
      None written call leftIndentation indentation width
      variableName variableType sizeVariableName sizeVariableType zlibCompress.
Proof.
  induction remaining as [|name remaining IH]; intros written call Hother;
    cbn [dumpInputs]; [reflexivity|].
  inversion Hother as [|? ? Hname Hothers]; subst.
  rewrite !openInput_other by (assumption || reflexivity).
  destruct (inputFile world name) as [contents|]; [|reflexivity].
  cbn [parseAndDumpInput]. rewrite IH by assumption. reflexivity.
Qed.

Lemma dumpPayloads_elsewhere inputs written :
  standardInputFrom world outputFilename = false ->
  Forall (fun name => isOutputFile world (Some outputFilename) name = false)
    inputs ->
  dumpPayloads qCompress indeterminate world inputs
    (Some outputFilename) written leftIndentation indentation width
    variableName variableType sizeVariableName sizeVariableType zlibCompress
  = dumpPayloads qCompress indeterminate world inputs
      None written leftIndentation indentation width
      variableName variableType sizeVariableName sizeVariableType zlibCompress.
Proof.
  intros Hcin Hother. unfold dumpPayloads.
  destruct inputs as [|name [|other inputs]].
  - unfold readStandardInput. now rewrite Hcin.
  - inversion Hother as [|? ? Hname Hothers]; subst.
    rewrite !openInput_other by (assumption || reflexivity).
    reflexivity.
  - now apply dumpInputs_elsewhere.
Qed.

End Elsewhere.





Lemma to_int_small z : 0 <= z <= INT_MAX -> to_int z = z.
Proof.
  intros H. unfold to_int, INT_MAX in *.
  rewrite Z.mod_small by lia. lia.
Qed.

(** A buffer whose size fits an [int] is copied whole. *)
Lemma QByteArray_whole (data : list byte) :
  Z.of_nat (List.length data) <= INT_MAX ->
  QByteArray data (to_int (Z.of_nat (List.length data))) = data.
Proof.
  intros H. rewrite to_int_small by lia.
  unfold QByteArray.
  destruct (Z.ltb_spec (Z.of_nat (List.length data)) 0) as [Hnegative|_];
    [lia|].
  rewrite Nat2Z.id. apply firstn_all.
Qed.


